(** * A shallow embedding of [histo.hpp] (phcerdan/histogram)

    The header-only C++ histogram [histo::Histo<PRECI, PRECI_INTEGER>] is
    embedded function by function.

    - A value of the precision type [PRECI] is a rational ([Q]): comparisons
      are the source's comparisons, arithmetic is exact.  Where IEEE
      arithmetic would leave the finite numbers (a division by zero) the
      embedding stops with [Stuck DivisionByZero] instead of inventing a
      value.
    - A count of type [PRECI_INTEGER] is an integer in [0, count_max], with
      the wrap-around of [++] written out.
    - A [std::vector] is a list; [v[i]] outside the vector is undefined
      behaviour in C++ and ends the embedding with [Stuck OutOfBoundsAccess].
    - [throw histo_error(...)] is [Throw], one constructor per throw site.
    - The [while] loops take fuel; running out of it is [OutOfFuel]. *)

From Stdlib Require Import String QArith Qabs Qround Qminmax ZArith Lia Lqa Bool List.
Import ListNotations.

Local Open Scope Q_scope.

(** ** Outcomes *)

(** The throw sites of [histo.hpp], named after their messages. *)
Inductive histo_error : Type :=
| NotMonotonicallyIncreasing   (* "input_breaks are not monotocally increasing" *)
| ValueOutOfBonds              (* " IndexFromValue: ... is out of bonds" *)
| IncreaseExceeded             (* "Increase has exceded PRECI_INTEGER." *)
| DecreaseNegative             (* "Decrease has reached negative value." *)
| SetCountOutOfBounds          (* "Index is out of bounds in SetCount" *)
| NoValidMethod                (* "CalculateBreaks: No Valid Method selected ..." *)
| NonEquidistantBreaks.        (* "BalanceBreaksWithRange cannot be applied in NON Equidistant breaks" *)

(** Ways in which an execution leaves what the embedding follows. *)
Inductive stuck : Type :=
| OutOfBoundsAccess      (* operator[] outside the vector, or *end() *)
| DivisionByZero         (* the IEEE result is an infinity or a NaN *)
| ConversionOutOfRange.  (* floating value not representable as unsigned long *)

Inductive outcome (A : Type) : Type :=
| Ok (a : A)
| Throw (e : histo_error)
| Stuck (s : stuck)
| OutOfFuel.

Arguments Ok {A} a.
Arguments Throw {A} e.
Arguments Stuck {A} s.
Arguments OutOfFuel {A}.

Definition bind {A B : Type} (m : outcome A) (k : A -> outcome B) : outcome B :=
  match m with
  | Ok a => k a
  | Throw e => Throw e
  | Stuck s => Stuck s
  | OutOfFuel => OutOfFuel
  end.

Declare Scope outcome_scope.
Delimit Scope outcome_scope with outcome.
Notation "x <- m ;; k" := (bind m (fun x => k))
  (at level 100, m at next level, right associativity) : outcome_scope.
Notation "' pat <- m ;; k" := (bind m (fun x => match x with pat => k end))
  (at level 100, pat pattern, m at next level, right associativity) : outcome_scope.
Local Open Scope outcome_scope.

(** ** Numbers *)

(** The template parameters [PRECI] and [PRECI_INTEGER] enter the code through
    [std::numeric_limits<PRECI>::epsilon()] and
    [std::numeric_limits<PRECI_INTEGER>::max()]. *)
Class Precision : Type := {
  epsilon : Q;
  epsilon_pos : 0 < epsilon;
  count_max : Z;
  count_max_pos : (0 < count_max)%Z
}.

(** [Histo<double, unsigned long int>], the defaults. *)
#[export] Instance double_ulong : Precision.
Proof.
  refine {| epsilon := 1 # 4503599627370496;
            count_max := 18446744073709551615 |}; reflexivity.
Defined.

Definition Qlt_bool (x y : Q) : bool := negb (Qle_bool y x).
Definition Qge_bool (x y : Q) : bool := Qle_bool y x.
Definition of_nat (n : nat) : Q := inject_Z (Z.of_nat n).

(** [v[i]] *)
Definition vec_at {A : Type} (v : list A) (i : nat) : outcome A :=
  match nth_error v i with
  | Some x => Ok x
  | None => Stuck OutOfBoundsAccess
  end.

(** [v[i] = x] on an index inside the vector *)
Fixpoint vec_set {A : Type} (i : nat) (x : A) (v : list A) : list A :=
  match v, i with
  | [], _ => []
  | _ :: v', O => x :: v'
  | y :: v', S i' => y :: vec_set i' x v'
  end.

(** ** The histogram *)

Inductive breaks_method : Type :=
| Scott
| OtherMethod.  (* any value of the enum type other than [Scott = 0] *)

(** The data members of [struct Histo]; [C] is the type of a count
    ([PRECI_INTEGER], or [PRECI] in the result of [NormalizeByArea]). *)
Record Histo (C : Type) : Type := mkHisto {
  range : Q * Q;
  breaks : list Q;
  bins : nat;
  counts : list C;
  name : string
}.

Arguments mkHisto {C}.
Arguments range {C}.
Arguments breaks {C}.
Arguments bins {C}.
Arguments counts {C}.
Arguments name {C}.

(** [Histo() = default]: the pair is value-initialised, [bins{0}], the
    vectors and the string are empty. *)
Definition Histo_default {C : Type} : Histo C :=
  mkHisto (0, 0) [] 0%nat [] EmptyString.

Definition set_counts {C D : Type} (h : Histo C) (c : list D) : Histo D :=
  mkHisto (range h) (breaks h) (bins h) c (name h).
Definition set_range {C : Type} (h : Histo C) (r : Q * Q) : Histo C :=
  mkHisto r (breaks h) (bins h) (counts h) (name h).
Definition set_breaks {C : Type} (h : Histo C) (b : list Q) : Histo C :=
  mkHisto (range h) b (bins h) (counts h) (name h).
Definition set_bins {C : Type} (h : Histo C) (n : nat) : Histo C :=
  mkHisto (range h) (breaks h) n (counts h) (name h).

Section Histogram.
Context {P : Precision}.

(** [sqrt] and [std::cbrt] of the C library, which are not rational
    functions: the code of [ScottMethod] is embedded over any two functions in
    their place. *)
Variable sqrt : Q -> Q.
Variable cbrt : Q -> Q.

(** [isequalthan<TData, N>(v1, v2)] *)
Definition isequalthan (N : nat) (v1 v2 : Q) : bool :=
  Qle_bool (Qabs (v1 - v2)) (of_nat N * epsilon).

(** [x++] on a [PRECI_INTEGER] *)
Definition incr (c : Z) : Z := ((c + 1) mod (count_max + 1))%Z.
(** [x--] on a [PRECI_INTEGER] *)
Definition decr (c : Z) : Z := ((c - 1) mod (count_max + 1))%Z.

(** *** [IndexFromValue] *)

(** The loop [while (hi - lo >= 2)]. *)
Fixpoint bisect (fuel : nat) (brk : list Q) (value : Q) (lo hi : nat)
  : outcome nat :=
  if (2 <=? hi - lo)%nat then
    match fuel with
    | O => OutOfFuel
    | S fuel' =>
        let newb := ((hi + lo) / 2)%nat in
        b <- vec_at brk newb ;;
        if Qge_bool value b then bisect fuel' brk value newb hi
        else bisect fuel' brk value lo newb
    end
  else Ok lo.

Definition IndexFromValue {C : Type} (h : Histo C) (value : Q) : outcome nat :=
  let lo := 0%nat in
  let hi := bins h in
  b_lo <- vec_at (breaks h) lo ;;
  if Qge_bool value b_lo then
    b_hi <- vec_at (breaks h) hi ;;
    if Qlt_bool value b_hi || isequalthan 1 value b_hi then
      bisect (hi - lo) (breaks h) value lo hi
    else Throw ValueOutOfBonds
  else Throw ValueOutOfBonds.

(** *** [CheckIfMonotonicallyIncreasing] *)

Fixpoint increasing_from (prev_value : Q) (rest : list Q) : bool :=
  match rest with
  | [] => true
  | x :: rest' =>
      if Qle_bool x prev_value then false else increasing_from x rest'
  end.

Definition CheckIfMonotonicallyIncreasing (input_breaks : list Q)
  : outcome bool :=
  match input_breaks with
  | [] => Stuck OutOfBoundsAccess
  | b0 :: rest => Ok (increasing_from b0 rest)
  end.

(** *** Counts *)

(** [ResetCounts]: [counts.resize(bins)], then every count set to zero. *)
Definition ResetCounts (h : Histo Z) : Histo Z :=
  set_counts h (repeat 0%Z (bins h)).

(** How a member function that mutates the object ends: the outcome, and the
    object as the call leaves it (an exception does not undo what was
    written before it was thrown). *)
Definition method (A : Type) : Type := Histo Z -> outcome A * Histo Z.

(** [counts[index]++] *)
Definition increment_count (index : nat) : method unit := fun h =>
  match nth_error (counts h) index with
  | Some c => (Ok tt, set_counts h (vec_set index (incr c) (counts h)))
  | None => (Stuck OutOfBoundsAccess, h)
  end.

(** [FillCounts]: [for (auto &v : data) counts[IndexFromValue(v)]++;] *)
Fixpoint FillCounts (data : list Q) : method unit := fun h =>
  match data with
  | [] => (Ok tt, h)
  | v :: data' =>
      match IndexFromValue h v with
      | Ok index =>
          match increment_count index h with
          | (Ok _, h') => FillCounts data' h'
          | stop => stop
          end
      | Throw e => (Throw e, h)
      | Stuck s => (Stuck s, h)
      | OutOfFuel => (OutOfFuel, h)
      end
  end.

Definition Increase (index : nat) : method unit := fun h =>
  match nth_error (counts h) index with
  | None => (Stuck OutOfBoundsAccess, h)
  | Some c =>
      if (c =? count_max)%Z then (Throw IncreaseExceeded, h)
      else increment_count index h
  end.

Definition Decrease (index : nat) : method unit := fun h =>
  match nth_error (counts h) index with
  | None => (Stuck OutOfBoundsAccess, h)
  | Some c =>
      if (c <=? 0)%Z then (Throw DecreaseNegative, h)
      else (Ok tt, set_counts h (vec_set index (decr c) (counts h)))
  end.

Definition SetCount (index : nat) (v : Z) : method unit := fun h =>
  if (bins h <? index)%nat then (Throw SetCountOutOfBounds, h)
  else if (index <? length (counts h))%nat
       then (Ok tt, set_counts h (vec_set index v (counts h)))
       else (Stuck OutOfBoundsAccess, h).

(** *** Breaks *)

(** [x / y] in [PRECI]; a zero divisor leaves the finite numbers. *)
Definition Qdiv_checked (x y : Q) : outcome Q :=
  if Qeq_bool y 0 then Stuck DivisionByZero else Ok (x / y).

(** [v.size() - 1] in [unsigned long]: wraps on an empty vector. *)
Definition ulong_max : Z := 18446744073709551615.
Definition size_minus_one {A : Type} (v : list A) : nat :=
  match v with
  | [] => Z.to_nat ulong_max
  | _ :: v' => length v'
  end.

Fixpoint equidistant_from (diff prev : Q) (rest : list Q) : bool :=
  match rest with
  | [] => true
  | x :: rest' =>
      if isequalthan 100 (x - prev) diff then equidistant_from diff x rest'
      else false
  end.

Definition CheckBreaksAreEquidistant (input_breaks : list Q) : outcome bool :=
  b1 <- vec_at input_breaks 1 ;;
  b0 <- vec_at input_breaks 0 ;;
  let diff := b1 - b0 in
  Ok (equidistant_from diff b0 (tl input_breaks)).

(** [CheckAndUpdateDiff(diff, diff_isZero, rhs, lhs)], the two references
    returned as a pair. *)
Definition CheckAndUpdateDiff (rhs lhs : Q) : Q * bool :=
  let diff := rhs - lhs in (diff, isequalthan 1 diff 0).

Definition ShiftBreaks (input_breaks : list Q) (d : Q) : list Q :=
  map (fun v => v + d) input_breaks.

Fixpoint shrink_from (i : nat) (d : Q) (input_breaks : list Q) : list Q :=
  match input_breaks with
  | [] => []
  | v :: rest => (v + of_nat i * d) :: shrink_from (S i) d rest
  end.

Definition ShrinkOrExpandBreaks (input_breaks : list Q) (d : Q) : list Q :=
  shrink_from 0 d input_breaks.

(** The loop [while (diff_upper < 0)] of [BalanceBreaksWithRange]. *)
Fixpoint append_bins (fuel : nat) (low width upper : Q)
    (nbins : nat) (input_breaks : list Q) (diff_upper : Q)
  : outcome (nat * list Q * Q) :=
  if Qlt_bool diff_upper 0 then
    match fuel with
    | O => OutOfFuel
    | S fuel' =>
        let nbins := S nbins in
        let input_breaks := input_breaks ++ [low + of_nat nbins * width] in
        b <- vec_at input_breaks nbins ;;
        append_bins fuel' low width upper nbins input_breaks (b - upper)
    end
  else Ok (nbins, input_breaks, diff_upper).

(** [BalanceBreaksWithRange] changes [input_breaks] through its reference and
    returns whether it did: the embedding returns both. The bias [0.8] of the
    source is taken as the fraction it is written as. *)
Definition BalanceBreaksWithRange (fuel : nat) (input_breaks : list Q)
    (input_range : Q * Q) : outcome (list Q * bool) :=
  equidistant <- CheckBreaksAreEquidistant input_breaks ;;
  if negb equidistant then Throw NonEquidistantBreaks else
  let nbins := size_minus_one input_breaks in
  b1 <- vec_at input_breaks 1 ;;
  b0 <- vec_at input_breaks 0 ;;
  let width := b1 - b0 in
  let diff_low := b0 - fst input_range in
  bn <- vec_at input_breaks nbins ;;
  let diff_upper := bn - snd input_range in
  let diff_low_isZero := isequalthan 1 diff_low 0 in
  let diff_upper_isZero := isequalthan 1 diff_upper 0 in
  if diff_low_isZero && diff_upper_isZero then Ok (input_breaks, false) else
  let input_breaks :=
    if negb diff_low_isZero then ShiftBreaks input_breaks (- diff_low)
    else input_breaks in
  bn <- vec_at input_breaks nbins ;;
  let '(diff_upper, diff_upper_isZero) :=
    CheckAndUpdateDiff bn (snd input_range) in
  if diff_upper_isZero then Ok (input_breaks, true) else
  let bias_to_add_bin := 8 # 10 in
  bp <- vec_at input_breaks (nbins - 1) ;;
  let diff_upper_before := bp - snd input_range in
  '(nbins, input_breaks) <-
    (if Qlt_bool diff_upper_before 0 && Qlt_bool 0 diff_upper &&
        Qlt_bool (Qabs diff_upper_before) (bias_to_add_bin * Qabs diff_upper)
     then
       let nbins := (nbins - 1)%nat in
       let input_breaks := removelast input_breaks in
       width_to_expand <- Qdiv_checked diff_upper_before (of_nat nbins) ;;
       Ok (nbins, ShrinkOrExpandBreaks input_breaks (- width_to_expand))
     else Ok (nbins, input_breaks)) ;;
  bn <- vec_at input_breaks nbins ;;
  let '(diff_upper, diff_upper_isZero) :=
    CheckAndUpdateDiff bn (snd input_range) in
  if diff_upper_isZero then Ok (input_breaks, true) else
  '(nbins, input_breaks, diff_upper) <-
    append_bins fuel (fst input_range) width (snd input_range)
                nbins input_breaks diff_upper ;;
  let diff_upper_isZero := isequalthan 1 diff_upper 0 in
  if diff_upper_isZero then Ok (input_breaks, true) else
  width_to_shrink <- Qdiv_checked diff_upper (of_nat nbins) ;;
  Ok (ShrinkOrExpandBreaks input_breaks (- width_to_shrink), true).

(** *** Scott's rule *)

(** The loop of [variance_welford]; [N] is an [unsigned long long], and
    [S_] is the source's [S]. *)
Fixpoint welford (xs : list Q) (N : nat) (M S_ : Q) : nat * Q :=
  match xs with
  | [] => (N, S_)
  | x :: xs' =>
      let N := S N in
      let Mprev := M in
      let M := M + (x - Mprev) / of_nat N in
      let S_ := S_ + (x - Mprev) * (x - M) in
      welford xs' N M S_
  end.

Definition variance_welford (xs : list Q) : outcome Q :=
  let '(N, S_) := welford xs 0 0 0 in
  let N_minus_1 :=
    match N with
    | O => inject_Z ulong_max   (* 0 - 1 wraps *)
    | S n => of_nat n
    end in
  Qdiv_checked S_ N_minus_1.

(** [n + 1] in [unsigned long]. *)
Definition ulong_succ (n : nat) : nat :=
  if (Z.of_nat n =? ulong_max)%Z then 0%nat else S n.

(** A floating value converted to [unsigned long]. *)
Definition to_ulong (z : Z) : outcome nat :=
  if ((0 <=? z) && (z <=? ulong_max))%Z then Ok (Z.to_nat z)
  else Stuck ConversionOutOfRange.

(** [ScottMethod] writes the members [bins] and [breaks] of the object and
    returns a reference to [breaks]: the embedding returns the object. *)
Definition ScottMethod (fuel : nat) (this : Histo Z) (data : list Q)
    (rang : Q * Q) : outcome (Histo Z) :=
  sigma <- variance_welford data ;;
  width <- Qdiv_checked ((35 # 10) * sqrt sigma)
                        (cbrt (of_nat (length data))) ;;
  quotient <- Qdiv_checked (snd rang - fst rang) width ;;
  bins <- to_ulong (Qceiling quotient) ;;
  let breaks :=
    map (fun i => fst (range this) + of_nat i * width)
        (seq 0 (ulong_succ bins)) in
  '(breaks, _) <- BalanceBreaksWithRange fuel breaks (range this) ;;
  Ok (set_bins (set_breaks this breaks) (size_minus_one breaks)).

Definition CalculateBreaks (fuel : nat) (this : Histo Z) (data : list Q)
    (rang : Q * Q) (method : breaks_method) : outcome (Histo Z) :=
  match method with
  | Scott => ScottMethod fuel this data rang
  | OtherMethod => Throw NoValidMethod
  end.

(** *** Constructors *)

(** [std::minmax_element], both iterators dereferenced. *)
Definition minmax_element (data : list Q) : outcome (Q * Q) :=
  match data with
  | [] => Stuck OutOfBoundsAccess
  | x :: rest => Ok (fold_left Qmin rest x, fold_left Qmax rest x)
  end.

(** A constructor that ends by an exception builds no object. *)
Definition constructed (r : outcome unit * Histo Z) : outcome (Histo Z) :=
  match r with
  | (Ok _, h) => Ok h
  | (Throw e, _) => Throw e
  | (Stuck s, _) => Stuck s
  | (OutOfFuel, _) => OutOfFuel
  end.

(** [Histo(data, method)] *)
Definition Histo_data (fuel : nat) (data : list Q) (method : breaks_method)
  : outcome (Histo Z) :=
  r <- minmax_element data ;;
  let this := set_range Histo_default r in
  this <- CalculateBreaks fuel this data (range this) method ;;
  let this := set_bins this (size_minus_one (breaks this)) in
  let this := ResetCounts this in
  constructed (FillCounts data this).

(** [Histo(data, input_range, method)] *)
Definition Histo_data_range (fuel : nat) (data : list Q)
    (input_range : Q * Q) (method : breaks_method) : outcome (Histo Z) :=
  let this := set_range Histo_default input_range in
  this <- CalculateBreaks fuel this data (range this) method ;;
  let this := set_bins this (size_minus_one (breaks this)) in
  let this := ResetCounts this in
  constructed (FillCounts data this).

(** [Histo(data, input_breaks)] *)
Definition Histo_data_breaks (data : list Q) (input_breaks : list Q)
  : outcome (Histo Z) :=
  let this := set_breaks Histo_default input_breaks in
  increasing <- CheckIfMonotonicallyIncreasing (breaks this) ;;
  if negb increasing then Throw NotMonotonicallyIncreasing else
  b_first <- vec_at (breaks this) 0 ;;
  b_last <- vec_at (breaks this) (size_minus_one (breaks this)) ;;
  let this := set_range this (b_first, b_last) in
  let this := set_bins this (size_minus_one (breaks this)) in
  let this := ResetCounts this in
  constructed (FillCounts data this).

(** *** Views *)

(** The loop of [ComputeBinCenters], [n] iterations from index [i]. *)
Fixpoint centers_from (brk : list Q) (i n : nat) : outcome (list Q) :=
  match n with
  | O => Ok []
  | S n' =>
      b1 <- vec_at brk (S i) ;;
      b0 <- vec_at brk i ;;
      let break_width := (b1 - b0) / 2 in
      rest <- centers_from brk (S i) n' ;;
      Ok ((b0 + break_width) :: rest)
  end.

Definition ComputeBinCenters (h : Histo Z) : outcome (list Q) :=
  centers_from (breaks h) 0 (length (counts h)).

(** [std::inner_product(first1, last1, first2, init)] *)
Fixpoint inner_product (xs : list Q) (ys : list Z) (init : Q) : outcome Q :=
  match xs with
  | [] => Ok init
  | x :: xs' =>
      match ys with
      | [] => Stuck OutOfBoundsAccess
      | y :: ys' => inner_product xs' ys' (init + x * inject_Z y)
      end
  end.

Definition Mean (input_histo : Histo Z) : outcome Q :=
  bin_centers <- ComputeBinCenters input_histo ;;
  product <- inner_product bin_centers (counts input_histo) 0 ;;
  Qdiv_checked product (of_nat (bins input_histo)).

(** The first loop of [NormalizeByArea], [n] iterations from index [i]. *)
Fixpoint area_sum (h : Histo Z) (i n : nat) (sum : Q) : outcome Q :=
  match n with
  | O => Ok sum
  | S n' =>
      c <- vec_at (counts h) i ;;
      b1 <- vec_at (breaks h) (S i) ;;
      b0 <- vec_at (breaks h) i ;;
      area_sum h (S i) n' (sum + inject_Z c * Qabs (b1 - b0))
  end.

(** [std::transform(first, last, d_first, [&sum](d) { return d / sum; })] *)
Fixpoint transform_div (sum : Q) (src : list Z) (dst : list Q)
  : outcome (list Q) :=
  match src with
  | [] => Ok dst
  | d :: src' =>
      q <- Qdiv_checked (inject_Z d) sum ;;
      match dst with
      | [] => Stuck OutOfBoundsAccess
      | _ :: dst' =>
          rest <- transform_div sum src' dst' ;;
          Ok (q :: rest)
      end
  end.

Definition NormalizeByArea (input_histo : Histo Z) : outcome (Histo Q) :=
  sum <- area_sum input_histo 0 (bins input_histo) 0 ;;
  let normalized : Histo Q := Histo_default in
  let normalized := set_bins normalized (bins input_histo) in
  let normalized := set_breaks normalized (breaks input_histo) in
  let normalized :=
    set_counts normalized (repeat 0 (bins input_histo)) in
  c <- transform_div sum (counts input_histo) (counts normalized) ;;
  Ok (set_counts normalized c).

(** *** Generators of breaks *)

(** [GenerateBreaksFromRangeAndBins(low, upper, bins)]: the vector has
    [bins + 1] elements, the sum taken in [unsigned long]. The breaks are
    the exact values of [low + i * width]. *)
Definition GenerateBreaksFromRangeAndBins (low upper : Q) (bins : nat)
  : outcome (list Q) :=
  width <- Qdiv_checked (upper - low) (of_nat bins) ;;
  Ok (map (fun i => low + of_nat i * width) (seq 0 (ulong_succ bins))).

(** The loop of [GenerateBreaksFromRangeAndWidth]; [br += width] adds
    exactly. *)
Fixpoint push_breaks (fuel : nat) (upper_limit width br : Q)
    (breaks : list Q) : outcome (list Q) :=
  if Qlt_bool br upper_limit then
    match fuel with
    | O => OutOfFuel
    | S fuel' =>
        push_breaks fuel' upper_limit width (br + width) (breaks ++ [br])
    end
  else Ok breaks.

(** [GenerateBreaksFromRangeAndWidth(low, upper, width)] *)
Definition GenerateBreaksFromRangeAndWidth (fuel : nat) (low upper width : Q)
  : outcome (list Q) :=
  let upper_limit := upper + width in
  push_breaks fuel upper_limit width low [].

(** *** Histograms the public interface can produce *)

(** A histogram is [built] when one of the three constructors returned it,
    or a public member function returned normally on a built one. *)
Inductive built : Histo Z -> Prop :=
| built_data (fuel : nat) (data : list Q) (method : breaks_method) (h : Histo Z) :
    Histo_data fuel data method = Ok h -> built h
| built_data_range (fuel : nat) (data : list Q) (input_range : Q * Q)
    (method : breaks_method) (h : Histo Z) :
    Histo_data_range fuel data input_range method = Ok h -> built h
| built_data_breaks (data input_breaks : list Q) (h : Histo Z) :
    Histo_data_breaks data input_breaks = Ok h -> built h
| built_ResetCounts (h : Histo Z) :
    built h -> built (ResetCounts h)
| built_FillCounts (h h' : Histo Z) (data : list Q) :
    built h -> FillCounts data h = (Ok tt, h') -> built h'
| built_Increase (h h' : Histo Z) (index : nat) :
    built h -> Increase index h = (Ok tt, h') -> built h'
| built_Decrease (h h' : Histo Z) (index : nat) :
    built h -> Decrease index h = (Ok tt, h') -> built h'
| built_SetCount (h h' : Histo Z) (index : nat) (v : Z) :
    built h -> SetCount index v h = (Ok tt, h') -> built h'.

End Histogram.

(** * What the claims speak of *)

(** The sum of [f k] over the [n] indices from [i] on. *)
Fixpoint Qsum_range (i n : nat) (f : nat -> Q) : Q :=
  match n with
  | O => 0
  | S n' => f i + Qsum_range (S i) n' f
  end.

(** Length consistency: [bins == breaks.size() - 1] on a non-empty vector of
    breaks, and one count per bin. *)
Definition consistent {C : Type} (h : Histo C) : Prop :=
  length (breaks h) = S (bins h) /\ length (counts h) = bins h.

Definition bin_width {C : Type} (h : Histo C) (i : nat) : Q :=
  Qabs (nth (S i) (breaks h) 0 - nth i (breaks h) 0).

(** The total area of the bars: the sum of [count[j] * binWidth[j]]. *)
Definition total_area (h : Histo Z) : Q :=
  Qsum_range 0 (bins h)
    (fun j => inject_Z (nth j (counts h) 0%Z) * bin_width h j).

(** The mean in the specification's words: the sum of
    [center[i] * count[i]], with [center[i] = (breaks[i] + breaks[i+1]) / 2],
    divided by the number of bins. *)
Definition Mean_spec (h : Histo Z) : Q :=
  Qsum_range 0 (bins h)
    (fun i => ((nth i (breaks h) 0 + nth (S i) (breaks h) 0) / 2)
              * inject_Z (nth i (counts h) 0%Z))
  / of_nat (bins h).

(** Breaks whose gaps are all equal to [w], exactly. *)
Definition exactly_equidistant (w : Q) (l : list Q) : Prop :=
  forall i, (S i < length l)%nat -> nth (S i) l 0 - nth i l 0 == w.

(** Breaks whose first gap is [w] and whose gaps are all within [epsilon] of
    [w]. *)
Definition gaps_near {P : Precision} (w : Q) (l : list Q) : Prop :=
  nth 1 l 0 - nth 0 l 0 == w /\
  forall i, (S i < length l)%nat ->
    Qabs (nth (S i) l 0 - nth i l 0 - w) <= epsilon.

(** A number of iterations that the loop of [BalanceBreaksWithRange] cannot
    exceed when the first gap of the breaks is positive: one more than the
    number of gaps of that width between the two ends of the range. *)
Definition append_bound (input_breaks : list Q) (input_range : Q * Q) : nat :=
  S (Z.to_nat (Qceiling ((snd input_range - fst input_range)
                         / (nth 1 input_breaks 0 - nth 0 input_breaks 0)))).

(** * What the further properties speak of *)

(** The [k] values [br], [br + width], [br + 2 * width], ... *)
Fixpoint steps (br width : Q) (k : nat) : list Q :=
  match k with
  | O => []
  | S k' => br :: steps (br + width) width k'
  end.

(** The sum of the counts. *)
Definition Zsum (l : list Z) : Z := fold_right Z.add 0%Z l.

(** How many values of [data] [IndexFromValue] sends to bin [i]. *)
Definition hits {P : Precision} {C : Type} (h : Histo C) (data : list Q)
    (i : nat) : nat :=
  length (filter (fun v => match IndexFromValue h v with
                           | Ok j => (j =? i)%nat
                           | _ => false
                           end) data).

Definition Qsum_list (l : list Q) : Q := fold_right Qplus 0 l.

(** The sample variance of the textbooks: the squared deviations from the
    mean, summed and divided by one less than the number of values. *)
Definition sample_mean (xs : list Q) : Q := Qsum_list xs / of_nat (length xs).
Definition sample_variance (xs : list Q) : Q :=
  Qsum_list (map (fun x => (x - sample_mean xs) * (x - sample_mean xs)) xs)
  / of_nat (length xs - 1).

(** * Data of the repository's tests *)

(** [HistoConstructor.withBreaks]: [br{1.0, 2.0, 15.0, 20.0}], before the
    counts are filled. *)
Definition withBreaks_histo : Histo Z :=
  mkHisto (1, 20) [1; 2; 15; 20] 3%nat [0; 0; 0]%Z EmptyString.

(** [HistoDoubleScott.MembersAreCorrect]: breaks [{1.0, 5.0}], one bin with
    the three values of the data. *)
Definition Scott_histo : Histo Z :=
  mkHisto (1, 5) [1; 5] 1%nat [3]%Z EmptyString.

(** [HistoConstructor.withBreaks] after the constructor has counted
    [data{1.0, 1.0, 2.0, 3.0, 19.0}]. *)
Definition withBreaks_filled : Histo Z :=
  mkHisto (1, 20) [1; 2; 15; 20] 3%nat [2; 2; 1]%Z EmptyString.

(** Two bins of width two with one value each: what
    [Histo<double> h(data{1.0, 3.0}, br{0.0, 2.0, 4.0})] builds. *)
Definition two_wide_bins : Histo Z :=
  mkHisto (0, 4) [0; 2; 4] 2%nat [1; 1]%Z EmptyString.

(** [HistoDoubleScott]: [data{1.0, 3.0, 5.0}] has variance [4], whose square
    root is [2]; the cube root of the size [3] is [1.44225] to five places. *)
Definition sqrt_HistoDoubleScott (x : Q) : Q := 2.
Definition cbrt_HistoDoubleScott (x : Q) : Q := 144225 # 100000.


(** The data of [HistoConstructor.withBreaks] and of [HistoDoubleScott]. *)
Definition withBreaks_data : list Q := [1; 1; 2; 3; 19].
Definition HistoDoubleScott_data : list Q := [1; 3; 5].

(** * Properties *)

Section Properties.
Context {P : Precision}.
Variable sqrt : Q -> Q.
Variable cbrt : Q -> Q.

(** ** Comparisons and vectors *)

Lemma Qlt_bool_iff (x y : Q) : Qlt_bool x y = true <-> x < y.
Proof.
  unfold Qlt_bool. rewrite negb_true_iff.
  split; intro H.
  - apply Qnot_le_lt. intro Hle. apply Qle_bool_iff in Hle. congruence.
  - destruct (Qle_bool y x) eqn:E; [|reflexivity].
    apply Qle_bool_iff in E. exfalso. apply (Qlt_not_le _ _ H E).
Qed.

Lemma Qlt_bool_false (x y : Q) : Qlt_bool x y = false <-> y <= x.
Proof.
  unfold Qlt_bool. rewrite negb_false_iff. apply Qle_bool_iff.
Qed.

Lemma Qge_bool_iff (x y : Q) : Qge_bool x y = true <-> y <= x.
Proof. apply Qle_bool_iff. Qed.

Lemma Qge_bool_false (x y : Q) : Qge_bool x y = false <-> x < y.
Proof.
  unfold Qge_bool. split; intro H.
  - apply Qnot_le_lt. intro Hle. apply Qle_bool_iff in Hle. congruence.
  - destruct (Qle_bool y x) eqn:E; [|reflexivity].
    apply Qle_bool_iff in E. exfalso. apply (Qlt_not_le _ _ H E).
Qed.

Lemma isequalthan_iff (N : nat) (v1 v2 : Q) :
  isequalthan N v1 v2 = true <-> Qabs (v1 - v2) <= of_nat N * epsilon.
Proof. apply Qle_bool_iff. Qed.

Lemma isequalthan_1_iff (v1 v2 : Q) :
  isequalthan 1 v1 v2 = true <-> v2 - epsilon <= v1 /\ v1 <= v2 + epsilon.
Proof.
  rewrite isequalthan_iff, Qabs_Qle_condition.
  change (of_nat 1) with 1. split; intros [H1 H2]; split; lra.
Qed.

Lemma isequalthan_same (N : nat) (v1 v2 : Q) :
  v1 == v2 -> isequalthan N v1 v2 = true.
Proof.
  intro H. apply isequalthan_iff.
  assert (E : v1 - v2 == 0) by lra. rewrite E. simpl.
  pose proof epsilon_pos.
  assert (0 <= of_nat N).
  { unfold of_nat. change 0 with (inject_Z 0). rewrite <- Zle_Qle. lia. }
  nra.
Qed.

Lemma vec_at_nth {A : Type} (v : list A) (i : nat) (d : A) :
  (i < length v)%nat -> vec_at v i = Ok (nth i v d).
Proof.
  intro H. unfold vec_at. rewrite (nth_error_nth' v d H). reflexivity.
Qed.

Lemma half_between (lo hi : nat) :
  (2 <= hi - lo)%nat -> (lo < (hi + lo) / 2 < hi)%nat.
Proof.
  intro H.
  pose proof (Nat.div_mod_eq (hi + lo) 2) as E.
  pose proof (Nat.mod_upper_bound (hi + lo) 2) as B.
  lia.
Qed.

(** ** [IndexFromValue] *)

Lemma bisect_step (fuel : nat) (brk : list Q) (value : Q) (lo hi : nat) :
  bisect (S fuel) brk value lo hi =
  if (2 <=? hi - lo)%nat then
    b <- vec_at brk ((hi + lo) / 2)%nat ;;
    if Qge_bool value b then bisect fuel brk value ((hi + lo) / 2)%nat hi
    else bisect fuel brk value lo ((hi + lo) / 2)%nat
  else Ok lo.
Proof. reflexivity. Qed.

(** The invariant of the bisection: the lower edge of [lo] is below the value,
    and the edge of [hi] is above it unless [hi] is the last edge [top]. *)
Lemma bisect_invariant (brk : list Q) (value : Q) (top : nat) :
  forall (fuel lo hi : nat),
    (lo < hi)%nat -> (hi < length brk)%nat -> (hi - lo <= fuel)%nat ->
    nth lo brk 0 <= value ->
    (value < nth hi brk 0 \/ hi = top) ->
    exists i, bisect fuel brk value lo hi = Ok i /\
      (lo <= i < hi)%nat /\
      nth i brk 0 <= value /\
      (value < nth (S i) brk 0 \/ S i = top).
Proof.
  induction fuel as [|fuel IH]; intros lo hi Hlt Hlen Hfuel Hlo Hhi.
  - exfalso; lia.
  - rewrite bisect_step. destruct (2 <=? hi - lo)%nat eqn:E.
    + apply Nat.leb_le in E.
      pose proof (half_between lo hi E) as [Hm1 Hm2].
      rewrite (vec_at_nth brk _ 0) by lia. cbn [bind].
      destruct (Qge_bool value (nth ((hi + lo) / 2) brk 0)) eqn:G.
      * apply Qge_bool_iff in G.
        destruct (IH ((hi + lo) / 2)%nat hi) as (i & Hi & Hr & Hb & Hu);
          try assumption; try lia.
        exists i. repeat split; try assumption; lia.
      * apply Qge_bool_false in G.
        destruct (IH lo ((hi + lo) / 2)%nat) as (i & Hi & Hr & Hb & Hu);
          try assumption; try lia.
        { left; assumption. }
        exists i. repeat split; try assumption; lia.
    + apply Nat.leb_gt in E.
      assert (hi = S lo) by lia. subst hi.
      exists lo. repeat split; try assumption; lia.
Qed.

(** C3. With strictly increasing breaks, at least two of them, and a value
    between the first and the last break, [IndexFromValue] returns a bin [i]
    whose lower edge is at most the value and whose upper edge is above the
    value, unless [i] is the last bin, which takes its upper edge too. (The
    bisection keeps this invariant by its own comparisons.) *)
Theorem IndexFromValue_in_bin {C : Type} (h : Histo C) (v : Q) :
  CheckIfMonotonicallyIncreasing (breaks h) = Ok true ->
  (2 <= length (breaks h))%nat ->
  length (breaks h) = S (bins h) ->
  nth 0 (breaks h) 0 <= v <= nth (bins h) (breaks h) 0 ->
  exists i, IndexFromValue h v = Ok i /\
    (i < bins h)%nat /\
    nth i (breaks h) 0 <= v /\
    (v < nth (S i) (breaks h) 0 \/ i = (bins h - 1)%nat) /\
    v <= nth (S i) (breaks h) 0.
Proof.
  intros _ Hlen Hbins [Hfront Hback].
  unfold IndexFromValue.
  rewrite (vec_at_nth (breaks h) 0 0) by lia. cbn [bind].
  rewrite (proj2 (Qge_bool_iff _ _) Hfront).
  rewrite (vec_at_nth (breaks h) (bins h) 0) by lia. cbn [bind].
  assert (G : Qlt_bool v (nth (bins h) (breaks h) 0)
              || isequalthan 1 v (nth (bins h) (breaks h) 0) = true).
  { destruct (Qlt_bool v (nth (bins h) (breaks h) 0)) eqn:E; [reflexivity|].
    apply Qlt_bool_false in E. apply isequalthan_same. lra. }
  rewrite G.
  destruct (bisect_invariant (breaks h) v (bins h) (bins h - 0) 0 (bins h))
    as (i & Hi & Hr & Hb & Hu);
    [lia | lia | lia | exact Hfront | right; reflexivity | ].
  exists i. repeat split; try assumption; try lia.
  - destruct Hu as [Hu|Hu]; [left; exact Hu | right; lia].
  - destruct Hu as [Hu|Hu]; [lra | rewrite Hu; exact Hback].
Qed.

(** [IndexFromValue] reads only the breaks and the number of bins. *)
Lemma IndexFromValue_ext {C D : Type} (h : Histo C) (h' : Histo D) (v : Q) :
  breaks h' = breaks h -> bins h' = bins h ->
  IndexFromValue h' v = IndexFromValue h v.
Proof.
  intros Hb Hn. unfold IndexFromValue. rewrite Hb, Hn. reflexivity.
Qed.

Lemma bisect_no_throw (brk : list Q) (value : Q) (e : histo_error) :
  forall (fuel lo hi : nat), bisect fuel brk value lo hi <> Throw e.
Proof.
  induction fuel as [|fuel IH]; intros lo hi.
  - change (bisect 0 brk value lo hi)
      with (if (2 <=? hi - lo)%nat then @OutOfFuel nat else Ok lo).
    destruct (2 <=? hi - lo)%nat; discriminate.
  - rewrite bisect_step. destruct (2 <=? hi - lo)%nat; [|discriminate].
    unfold vec_at. destruct (nth_error brk ((hi + lo) / 2)) as [b|];
      cbn [bind]; [|discriminate].
    destruct (Qge_bool value b); apply IH.
Qed.

Lemma IndexFromValue_throws {C : Type} (h : Histo C) (v : Q) (e : histo_error) :
  IndexFromValue h v = Throw e -> e = ValueOutOfBonds.
Proof.
  unfold IndexFromValue, vec_at.
  destruct (nth_error (breaks h) 0) as [b0|]; cbn [bind]; [|discriminate].
  destruct (Qge_bool v b0); [|congruence].
  destruct (nth_error (breaks h) (bins h)) as [bn|]; cbn [bind];
    [|discriminate].
  destruct (Qlt_bool v bn || isequalthan 1 v bn); [|congruence].
  intro H. exfalso. exact (bisect_no_throw _ _ _ _ _ _ H).
Qed.

(** The edges are increasing when the source's check says so. *)
Lemma increasing_from_above (rest : list Q) :
  forall (prev : Q), increasing_from prev rest = true ->
    forall j, (j < length rest)%nat -> prev < nth j rest 0.
Proof.
  induction rest as [|x rest IH]; intros prev H j Hj; simpl in *.
  - lia.
  - destruct (Qle_bool x prev) eqn:E; [discriminate|].
    assert (prev < x).
    { apply Qnot_le_lt. intro Hle. apply Qle_bool_iff in Hle. congruence. }
    destruct j as [|j]; [assumption|].
    apply Qlt_trans with x; [assumption|]. apply IH; [assumption|lia].
Qed.

Lemma increasing_nth (brk : list Q) :
  CheckIfMonotonicallyIncreasing brk = Ok true ->
  forall i j, (i < j < length brk)%nat -> nth i brk 0 < nth j brk 0.
Proof.
  unfold CheckIfMonotonicallyIncreasing.
  destruct brk as [|b0 rest]; [discriminate|].
  intro H. cbn in H. injection H as H. revert b0 H.
  induction rest as [|x rest IH]; intros b0 H i j Hij; simpl in Hij.
  - lia.
  - destruct j as [|j]; [lia|]. destruct i as [|i].
    + apply (increasing_from_above (x :: rest) b0 H j). simpl; lia.
    + simpl in H. destruct (Qle_bool x b0); [discriminate|].
      apply (IH x H i j). simpl; lia.
Qed.

(** A value at or above every edge is sent to the last bin. *)
Lemma bisect_above (brk : list Q) (value : Q) :
  (forall j, (j < length brk)%nat -> nth j brk 0 <= value) ->
  forall (fuel lo hi : nat),
    (lo < hi)%nat -> (hi < length brk)%nat -> (hi - lo <= fuel)%nat ->
    bisect fuel brk value lo hi = Ok (hi - 1)%nat.
Proof.
  intros Habove.
  induction fuel as [|fuel IH]; intros lo hi Hlt Hlen Hfuel.
  - exfalso; lia.
  - rewrite bisect_step. destruct (2 <=? hi - lo)%nat eqn:E.
    + apply Nat.leb_le in E.
      pose proof (half_between lo hi E) as [Hm1 Hm2].
      rewrite (vec_at_nth brk _ 0) by lia. cbn [bind].
      rewrite (proj2 (Qge_bool_iff _ _)
                 (Habove ((hi + lo) / 2)%nat ltac:(lia))).
      apply IH; lia.
    + apply Nat.leb_gt in E. f_equal. lia.
Qed.

(** C6, as the code has it. [IndexFromValue] throws exactly when the value is
    below the first break, by any amount, or above the last break by more
    than [epsilon]: the tolerance is on the upper side only. A value that
    exceeds the last break by at most [epsilon] is accepted and sent to the
    last bin. *)
Theorem IndexFromValue_out_of_bonds {C : Type} (h : Histo C) (v : Q) :
  length (breaks h) = S (bins h) ->
  (IndexFromValue h v = Throw ValueOutOfBonds <->
     v < nth 0 (breaks h) 0 \/ nth (bins h) (breaks h) 0 + epsilon < v) /\
  (CheckIfMonotonicallyIncreasing (breaks h) = Ok true ->
   (1 <= bins h)%nat ->
   nth (bins h) (breaks h) 0 <= v <= nth (bins h) (breaks h) 0 + epsilon ->
   IndexFromValue h v = Ok (bins h - 1)%nat).
Proof.
  intro Hlen. pose proof epsilon_pos as Heps. unfold IndexFromValue.
  rewrite (vec_at_nth (breaks h) 0 0) by lia.
  rewrite (vec_at_nth (breaks h) (bins h) 0) by lia. cbn [bind].
  set (front := nth 0 (breaks h) 0). set (back := nth (bins h) (breaks h) 0).
  split.
  - destruct (Qge_bool v front) eqn:F.
    + apply Qge_bool_iff in F.
      destruct (Qlt_bool v back) eqn:L; cbn [orb].
      * apply Qlt_bool_iff in L. split.
        -- intro H. exfalso. exact (bisect_no_throw _ _ _ _ _ _ H).
        -- intros [H|H]; exfalso; lra.
      * apply Qlt_bool_false in L.
        destruct (isequalthan 1 v back) eqn:T.
        -- apply isequalthan_1_iff in T. split.
           ++ intro H. exfalso. exact (bisect_no_throw _ _ _ _ _ _ H).
           ++ intros [H|H]; exfalso; lra.
        -- split; [|reflexivity]. intros _. right.
           apply Qnot_le_lt. intro Hle.
           assert (isequalthan 1 v back = true)
             by (apply isequalthan_1_iff; split; lra).
           congruence.
    + apply Qge_bool_false in F. split; [|reflexivity].
      intros _. left. exact F.
  - intros Hinc Hbins [Hlo Hhi].
    assert (Habove : forall j, (j < length (breaks h))%nat ->
                               nth j (breaks h) 0 <= v).
    { intros j Hj. destruct (Nat.eq_dec j (bins h)) as [->|Hne].
      - exact Hlo.
      - apply Qle_trans with back; [|exact Hlo].
        apply Qlt_le_weak. apply (increasing_nth _ Hinc). lia. }
    assert (F : Qge_bool v front = true)
      by (apply Qge_bool_iff; apply (Habove 0%nat); lia).
    rewrite F.
    assert (T : isequalthan 1 v back = true).
    { apply isequalthan_1_iff. split; lra. }
    rewrite T, orb_true_r.
    apply bisect_above; [exact Habove | lia | lia | lia].
Qed.

(** ** Counts *)

Lemma vec_set_length {A : Type} (i : nat) (x : A) (v : list A) :
  length (vec_set i x v) = length v.
Proof.
  revert i; induction v as [|y v IH]; intros [|i]; simpl; auto.
Qed.

Lemma increment_count_inv (index : nat) (h h' : Histo Z) (r : outcome unit) :
  increment_count index h = (r, h') ->
  breaks h' = breaks h /\ bins h' = bins h /\ range h' = range h /\
  length (counts h') = length (counts h) /\
  (r = Ok tt \/ (r = Stuck OutOfBoundsAccess /\ h' = h)).
Proof.
  unfold increment_count. destruct (nth_error (counts h) index) as [c|];
    intro H; injection H as <- <-; simpl.
  - rewrite vec_set_length. repeat split; auto.
  - repeat split; auto.
Qed.

Lemma FillCounts_cons (v : Q) (data : list Q) (h : Histo Z) :
  FillCounts (v :: data) h =
  match IndexFromValue h v with
  | Ok index =>
      match increment_count index h with
      | (Ok _, h') => FillCounts data h'
      | stop => stop
      end
  | Throw e => (Throw e, h)
  | Stuck s => (Stuck s, h)
  | OutOfFuel => (OutOfFuel, h)
  end.
Proof. reflexivity. Qed.

Lemma Zsum_vec_set (l : list Z) :
  forall (i : nat) (c x : Z),
    nth_error l i = Some c -> Zsum (vec_set i x l) = (Zsum l - c + x)%Z.
Proof.
  induction l as [|y l IH]; intros [|i] c x H; simpl in *; try discriminate.
  - injection H as ->. lia.
  - rewrite (IH i c x H). lia.
Qed.

Lemma Forall_vec_set (Q0 : Z -> Prop) (l : list Z) :
  forall (i : nat) (x : Z),
    Forall Q0 l -> Q0 x -> Forall Q0 (vec_set i x l).
Proof.
  induction l as [|y l IH]; intros [|i] x Hl Hx; simpl; auto;
    inversion Hl; subst; constructor; auto.
Qed.

Lemma Zsum_bound (l : list Z) :
  Forall (fun c => (0 <= c)%Z) l ->
  forall i c, nth_error l i = Some c -> (0 <= c <= Zsum l)%Z.
Proof.
  induction 1 as [|y l Hy Hl IH]; intros [|i] c H; simpl in *;
    try discriminate.
  - injection H as ->.
    assert (0 <= Zsum l)%Z.
    { clear IH. induction Hl; simpl; [lia|]. unfold Zsum in *. simpl. lia. }
    lia.
  - specialize (IH i c H). lia.
Qed.

Lemma FillCounts_sum (data : list Q) :
  forall (h h' : Histo Z),
    Forall (fun c => (0 <= c)%Z) (counts h) ->
    (Zsum (counts h) + Z.of_nat (length data) <= count_max)%Z ->
    FillCounts data h = (Ok tt, h') ->
    Zsum (counts h') = (Zsum (counts h) + Z.of_nat (length data))%Z /\
    Forall (fun c => (0 <= c)%Z) (counts h').
Proof.
  induction data as [|v data IH]; intros h h' Hpos Hmax H.
  - simpl in H. injection H as <-. simpl. split; [lia | exact Hpos].
  - rewrite FillCounts_cons in H.
    destruct (IndexFromValue h v) as [i| | |]; try discriminate.
    unfold increment_count in H.
    destruct (nth_error (counts h) i) as [c|] eqn:E; [|discriminate].
    pose proof (Zsum_bound _ Hpos i c E) as Hc.
    pose proof count_max_pos as Hcm.
    assert (Hincr : incr c = (c + 1)%Z).
    { unfold incr. apply Z.mod_small.
      change (length (v :: data)) with (S (length data)) in Hmax. lia. }
    rewrite Hincr in H.
    apply IH in H.
    + destruct H as [H1 H2]. split; [|exact H2].
      rewrite H1. cbn [counts set_counts].
      rewrite (Zsum_vec_set _ _ _ _ E).
      change (length (v :: data)) with (S (length data)). lia.
    + cbn [counts set_counts]. apply Forall_vec_set; [exact Hpos | lia].
    + cbn [counts set_counts]. rewrite (Zsum_vec_set _ _ _ _ E).
      change (length (v :: data)) with (S (length data)) in Hmax. lia.
Qed.

(** Where a [FillCounts] that throws has stopped. *)
Lemma FillCounts_throw_split (data : list Q) (h h' : Histo Z)
    (e : histo_error) :
  FillCounts data h = (Throw e, h') ->
  exists pre v post,
    data = pre ++ v :: post /\
    FillCounts pre h = (Ok tt, h') /\
    IndexFromValue h v = Throw ValueOutOfBonds /\
    e = ValueOutOfBonds /\
    breaks h' = breaks h /\ bins h' = bins h /\
    (pre = [] -> h' = h).
Proof.
  revert h. induction data as [|v data IH]; intros h H; simpl in H.
  - discriminate.
  - destruct (IndexFromValue h v) as [index|e'| |] eqn:I; try discriminate.
    + destruct (increment_count index h) as [r h1] eqn:Inc.
      pose proof (increment_count_inv _ _ _ _ Inc)
        as (Hb & Hn & _ & _ & [->|[-> ->]]); [|discriminate].
      destruct (IH h1 H) as (pre & v0 & post & -> & Hpre & Hv & He & Hb' & Hn' & _).
      exists (v :: pre), v0, post. repeat split.
      * simpl. rewrite I, Inc. exact Hpre.
      * rewrite <- Hv. symmetry. apply IndexFromValue_ext; assumption.
      * exact He.
      * congruence.
      * congruence.
      * discriminate.
    + injection H as -> ->.
      pose proof (IndexFromValue_throws _ _ _ I) as ->.
      exists [], v, data. repeat split; auto.
Qed.

(** C2, as the code has it. When [FillCounts] throws, the values of the
    sample before the first one that [IndexFromValue] rejects have been
    counted: the object is left as a successful fill of that prefix leaves
    it, breaks and number of bins untouched. Nothing is rolled back. With an
    empty prefix the counts are as before the call. With a prefix that is
    not empty, on counts that are not negative and do not wrap around, the
    sum of the counts has grown by the length of the prefix, so that the
    counts are not as before the call. *)
Theorem FillCounts_throw_keeps_prefix (data : list Q) (h h' : Histo Z)
    (e : histo_error) :
  FillCounts data h = (Throw e, h') ->
  exists pre v post,
    data = pre ++ v :: post /\
    FillCounts pre h = (Ok tt, h') /\
    IndexFromValue h v = Throw ValueOutOfBonds /\
    e = ValueOutOfBonds /\
    breaks h' = breaks h /\ bins h' = bins h /\
    (pre = [] -> h' = h) /\
    (Forall (fun c => (0 <= c)%Z) (counts h) ->
     (Zsum (counts h) + Z.of_nat (length pre) <= count_max)%Z ->
     Zsum (counts h') = (Zsum (counts h) + Z.of_nat (length pre))%Z /\
     (pre <> [] -> counts h' <> counts h)).
Proof.
  intro H.
  destruct (FillCounts_throw_split data h h' e H)
    as (pre & v & post & Hd & Hpre & Hv & He & Hb & Hn & Hsame).
  exists pre, v, post.
  split; [exact Hd|]. split; [exact Hpre|]. split; [exact Hv|].
  split; [exact He|]. split; [exact Hb|]. split; [exact Hn|].
  split; [exact Hsame|].
  intros Hpos Hmax.
  destruct (FillCounts_sum pre h h' Hpos Hmax Hpre) as [Hsum _].
  split; [exact Hsum|].
  intros Hne Heq. rewrite Heq in Hsum.
  destruct pre as [|x pre]; [contradiction|]. simpl length in Hsum. lia.
Qed.

(** C5, as the code has it. [SetCount] checks its index against the number
    of bins and throws, leaving the counts alone and without touching them,
    when the index is greater. [Increase] and [Decrease] check the count and
    not the index: with an index at or beyond the number of bins they read
    [counts[index]] outside the vector and throw nothing. *)
Theorem count_mutators_index_check (h : Histo Z) (index : nat) (v : Z) :
  length (counts h) = bins h ->
  ((bins h < index)%nat -> SetCount index v h = (Throw SetCountOutOfBounds, h)) /\
  ((bins h <= index)%nat ->
     Increase index h = (Stuck OutOfBoundsAccess, h) /\
     Decrease index h = (Stuck OutOfBoundsAccess, h)).
Proof.
  intro Hlen. split.
  - intro H. unfold SetCount.
    apply Nat.ltb_lt in H. rewrite H. reflexivity.
  - intro H. unfold Increase, Decrease.
    assert (E : nth_error (counts h) index = None)
      by (apply nth_error_None; lia).
    rewrite E. split; reflexivity.
Qed.

(** ** Sums *)

Lemma Qsum_range_ext (f g : nat -> Q) :
  forall (n i : nat),
    (forall k, (i <= k < i + n)%nat -> f k == g k) ->
    Qsum_range i n f == Qsum_range i n g.
Proof.
  induction n as [|n IH]; intros i H; simpl.
  - reflexivity.
  - rewrite (H i) by lia. rewrite (IH (S i)).
    + reflexivity.
    + intros k Hk. apply H. lia.
Qed.

Lemma Qsum_range_scale (f : nat -> Q) (c : Q) :
  forall (n i : nat),
    Qsum_range i n (fun k => f k * c) == Qsum_range i n f * c.
Proof.
  induction n as [|n IH]; intros i; simpl.
  - ring.
  - rewrite IH. ring.
Qed.

Lemma Qsum_range_shift (f : nat -> Q) :
  forall (n i : nat),
    Qsum_range (S i) n f = Qsum_range i n (fun k => f (S k)).
Proof.
  induction n as [|n IH]; intros i; simpl.
  - reflexivity.
  - rewrite IH. reflexivity.
Qed.

Lemma of_nat_pos (n : nat) : (1 <= n)%nat -> 0 < of_nat n.
Proof.
  intro H. unfold of_nat. change 0 with (inject_Z 0).
  rewrite <- Zlt_Qlt. lia.
Qed.

Lemma Qdiv_checked_Ok (x y : Q) : ~ y == 0 -> Qdiv_checked x y = Ok (x / y).
Proof.
  intro H. unfold Qdiv_checked.
  destruct (Qeq_bool y 0) eqn:E; [|reflexivity].
  apply Qeq_bool_iff in E. contradiction.
Qed.

(** ** [NormalizeByArea] *)

Lemma area_sum_total (h : Histo Z) :
  forall (n i : nat) (sum : Q),
    (i + n <= length (counts h))%nat ->
    (i + n < length (breaks h))%nat ->
    exists s, area_sum h i n sum = Ok s /\
      s == sum + Qsum_range i n
                   (fun j => inject_Z (nth j (counts h) 0%Z) * bin_width h j).
Proof.
  induction n as [|n IH]; intros i sum Hc Hb; simpl.
  - exists sum. split; [reflexivity | ring].
  - rewrite (vec_at_nth (counts h) i 0%Z) by lia.
    rewrite (vec_at_nth (breaks h) (S i) 0) by lia.
    rewrite (vec_at_nth (breaks h) i 0) by lia. cbn [bind].
    destruct (IH (S i)
                (sum + inject_Z (nth i (counts h) 0%Z)
                       * Qabs (nth (S i) (breaks h) 0 - nth i (breaks h) 0)))
      as (s & Hs & Es); [lia | lia |].
    exists s. split; [exact Hs|]. rewrite Es. unfold bin_width. ring.
Qed.

Lemma transform_div_map (sum : Q) :
  ~ sum == 0 ->
  forall (src : list Z) (dst : list Q),
    length dst = length src ->
    transform_div sum src dst = Ok (map (fun d => inject_Z d / sum) src).
Proof.
  intros Hs. induction src as [|d src IH]; intros dst Hlen; simpl.
  - destruct dst; [reflexivity | discriminate].
  - rewrite (Qdiv_checked_Ok _ _ Hs). cbn [bind].
    destruct dst as [|x dst]; [discriminate|].
    rewrite IH by (simpl in Hlen; lia). reflexivity.
Qed.

Lemma nth_map_div (sum : Q) (cs : list Z) (i : nat) :
  (i < length cs)%nat ->
  nth i (map (fun d => inject_Z d / sum) cs) 0 = inject_Z (nth i cs 0%Z) / sum.
Proof.
  intro H.
  rewrite (nth_indep _ 0 ((fun d => inject_Z d / sum) 0%Z))
    by (rewrite length_map; exact H).
  apply (map_nth (fun d => inject_Z d / sum)).
Qed.

(** C4, as the code has it. [NormalizeByArea] divides each count by the total
    area of the bars and does not multiply it by the width of its bin: the
    result is a density, whose bars have total area one. Breaks and number of
    bins are copied. When every bin has the same width [w] the new counts sum
    to [1 / w], which is one for bins of width one. *)
Theorem NormalizeByArea_density (h : Histo Z) :
  consistent h -> ~ total_area h == 0 ->
  exists hn, NormalizeByArea h = Ok hn /\
    breaks hn = breaks h /\ bins hn = bins h /\
    length (counts hn) = bins h /\
    (forall i, (i < bins h)%nat ->
       nth i (counts hn) 0 == inject_Z (nth i (counts h) 0%Z) / total_area h) /\
    Qsum_range 0 (bins h) (fun i => nth i (counts hn) 0 * bin_width h i) == 1 /\
    (forall w, (forall i, (i < bins h)%nat -> bin_width h i == w) ->
       Qsum_range 0 (bins h) (fun i => nth i (counts hn) 0) * w == 1).
Proof.
  intros [Hb Hc] Harea. unfold NormalizeByArea.
  destruct (area_sum_total h (bins h) 0 0) as (s & Hs & Es); [lia | lia |].
  rewrite Hs. cbn [bind].
  assert (Et : s == total_area h) by (rewrite Es; unfold total_area; ring).
  assert (Hs0 : ~ s == 0) by (rewrite Et; exact Harea).
  cbn [counts set_counts set_breaks set_bins bins breaks Histo_default].
  rewrite (transform_div_map s Hs0) by (rewrite repeat_length; lia).
  cbn [bind].
  eexists. split; [reflexivity|].
  cbn [counts set_counts set_breaks set_bins bins breaks Histo_default].
  assert (Hnth : forall i, (i < bins h)%nat ->
            nth i (map (fun d => inject_Z d / s) (counts h)) 0
            == inject_Z (nth i (counts h) 0%Z) / total_area h).
  { intros i Hi. rewrite nth_map_div by lia. rewrite Et. reflexivity. }
  assert (Hone : Qsum_range 0 (bins h)
            (fun i => nth i (map (fun d => inject_Z d / s) (counts h)) 0
                      * bin_width h i) == 1).
  { rewrite (Qsum_range_ext _
               (fun i => inject_Z (nth i (counts h) 0%Z) * bin_width h i
                         * / total_area h)).
    - rewrite Qsum_range_scale. fold (total_area h). field. exact Harea.
    - intros k Hk. rewrite Hnth by lia. field. exact Harea. }
  repeat split.
  - rewrite length_map. exact Hc.
  - exact Hnth.
  - exact Hone.
  - intros w Hw. rewrite <- Qsum_range_scale. rewrite <- Hone.
    apply Qsum_range_ext. intros k Hk. rewrite Hw by lia. reflexivity.
Qed.

(** C10, as the code has it. The histogram that [NormalizeByArea] returns
    has the range [(0, 0)] and the empty name of a default-constructed
    [Histo], whatever the input has there; the number of bins and the breaks
    are the input's. Its range therefore starts at its first break exactly
    when that break is zero. (The input is a const reference: the embedding
    is a function of it.) *)
Theorem NormalizeByArea_default_members (h : Histo Z) (hn : Histo Q) :
  NormalizeByArea h = Ok hn ->
  range hn = (0, 0) /\ name hn = EmptyString /\
  bins hn = bins h /\ breaks hn = breaks h /\
  (fst (range hn) == nth 0 (breaks hn) 0 <-> nth 0 (breaks h) 0 == 0).
Proof.
  unfold NormalizeByArea.
  destruct (area_sum h 0 (bins h) 0) as [s| | |]; cbn [bind];
    try discriminate.
  destruct (transform_div s (counts h) _) as [c| | |]; cbn [bind];
    try discriminate.
  intro H. injection H as <-.
  cbn [range name bins breaks set_counts set_breaks set_bins Histo_default fst].
  repeat split; intro E; symmetry; exact E.
Qed.

(** ** [Mean] *)

Lemma centers_from_map (brk : list Q) :
  forall (n i : nat),
    (i + n < length brk)%nat ->
    centers_from brk i n =
    Ok (map (fun k => nth k brk 0 + (nth (S k) brk 0 - nth k brk 0) / 2)
            (seq i n)).
Proof.
  induction n as [|n IH]; intros i H; simpl.
  - reflexivity.
  - rewrite (vec_at_nth brk (S i) 0) by lia.
    rewrite (vec_at_nth brk i 0) by lia. cbn [bind].
    rewrite IH by lia. reflexivity.
Qed.

Lemma inner_product_sum :
  forall (xs : list Q) (ys : list Z) (init : Q),
    length xs = length ys ->
    exists r, inner_product xs ys init = Ok r /\
      r == init + Qsum_range 0 (length xs)
                    (fun k => nth k xs 0 * inject_Z (nth k ys 0%Z)).
Proof.
  induction xs as [|x xs IH]; intros ys init Hlen; simpl.
  - exists init. split; [reflexivity | ring].
  - destruct ys as [|y ys]; [discriminate|].
    destruct (IH ys (init + x * inject_Z y)) as (r & Hr & Er);
      [simpl in Hlen; lia|].
    exists r. split; [exact Hr|].
    rewrite Er, Qsum_range_shift. cbn [nth]. ring.
Qed.

(** C9. On a histogram with consistent lengths and at least one bin, [Mean]
    returns the sum of the products of bin center and count divided by the
    number of bins, not by the number of values counted. *)
Theorem Mean_divides_by_bins (h : Histo Z) :
  consistent h -> (1 <= bins h)%nat ->
  exists m, Mean h = Ok m /\ m == Mean_spec h.
Proof.
  intros [Hb Hc] Hbins. unfold Mean, ComputeBinCenters.
  rewrite centers_from_map by lia. cbn [bind].
  destruct (inner_product_sum
              (map (fun k => nth k (breaks h) 0
                             + (nth (S k) (breaks h) 0 - nth k (breaks h) 0) / 2)
                   (seq 0 (length (counts h))))
              (counts h) 0) as (r & Hr & Er).
  { rewrite length_map, length_seq. reflexivity. }
  rewrite Hr. cbn [bind].
  pose proof (of_nat_pos (bins h) Hbins) as Hpos.
  rewrite Qdiv_checked_Ok by lra.
  eexists. split; [reflexivity|].
  unfold Mean_spec. rewrite Er, length_map, length_seq, Hc.
  apply Qmult_comp; [|reflexivity].
  rewrite Qplus_0_l. apply Qsum_range_ext. intros k Hk.
  rewrite (nth_indep _ 0
             ((fun k => nth k (breaks h) 0
                        + (nth (S k) (breaks h) 0 - nth k (breaks h) 0) / 2)
                0%nat))
    by (rewrite length_map, length_seq; lia).
  rewrite (map_nth (fun k => nth k (breaks h) 0
                      + (nth (S k) (breaks h) 0 - nth k (breaks h) 0) / 2)).
  rewrite seq_nth by lia. simpl. field.
Qed.

(** ** [BalanceBreaksWithRange] *)

Lemma isequalthan_proper (N : nat) (x y z : Q) :
  x == y -> isequalthan N x z = isequalthan N y z.
Proof.
  intro H. unfold isequalthan. rewrite H. reflexivity.
Qed.

Lemma isequalthan_zero (x : Q) : x == 0 -> isequalthan 1 x 0 = true.
Proof. apply isequalthan_same. Qed.

Lemma ShiftBreaks_length (b : list Q) (d : Q) :
  length (ShiftBreaks b d) = length b.
Proof. apply length_map. Qed.

Lemma ShiftBreaks_nth (b : list Q) (d : Q) (i : nat) :
  (i < length b)%nat -> nth i (ShiftBreaks b d) 0 = nth i b 0 + d.
Proof.
  intro H. unfold ShiftBreaks.
  rewrite (nth_indep _ 0 ((fun v => v + d) 0)) by (rewrite length_map; exact H).
  apply (map_nth (fun v => v + d)).
Qed.

Lemma shrink_from_length (d : Q) (b : list Q) :
  forall i, length (shrink_from i d b) = length b.
Proof. induction b as [|v b IH]; intro i; simpl; auto. Qed.

Lemma shrink_from_nth (d : Q) (b : list Q) :
  forall i k, (k < length b)%nat ->
    nth k (shrink_from i d b) 0 = nth k b 0 + of_nat (i + k) * d.
Proof.
  induction b as [|v b IH]; intros i k H; simpl in H.
  - lia.
  - destruct k as [|k]; simpl.
    + rewrite Nat.add_0_r. reflexivity.
    + rewrite IH by lia. do 2 f_equal. f_equal. lia.
Qed.

Lemma removelast_length_pred {A : Type} (l : list A) :
  length (removelast l) = (length l - 1)%nat.
Proof.
  rewrite removelast_firstn_len, length_firstn. lia.
Qed.

Lemma removelast_nth {A : Type} (d : A) (l : list A) (k : nat) :
  (k < length l - 1)%nat -> nth k (removelast l) d = nth k l d.
Proof.
  intro H. rewrite removelast_firstn_len, nth_firstn.
  destruct (k <? pred (length l))%nat eqn:E; [reflexivity|].
  apply Nat.ltb_ge in E. lia.
Qed.

Lemma append_bins_step (fuel : nat) (low width upper : Q) (nbins : nat)
    (b : list Q) (du : Q) :
  append_bins (S fuel) low width upper nbins b du =
  if Qlt_bool du 0 then
    x <- vec_at (b ++ [low + of_nat (S nbins) * width]) (S nbins) ;;
    append_bins fuel low width upper (S nbins)
                (b ++ [low + of_nat (S nbins) * width]) (x - upper)
  else Ok (nbins, b, du).
Proof. reflexivity. Qed.

Lemma append_bins_zero (low width upper : Q) (nbins : nat)
    (b : list Q) (du : Q) :
  append_bins 0 low width upper nbins b du =
  if Qlt_bool du 0 then OutOfFuel else Ok (nbins, b, du).
Proof. reflexivity. Qed.

Lemma vec_at_appended (b : list Q) (x : Q) (n : nat) :
  length b = n -> vec_at (b ++ [x]) n = Ok x.
Proof.
  intros <-. unfold vec_at. rewrite nth_error_app2 by lia.
  rewrite Nat.sub_diag. reflexivity.
Qed.

Lemma append_bins_post (low width upper : Q) :
  forall (fuel nbins : nat) (b : list Q) (du : Q) nbins' b' du',
    length b = S nbins ->
    du = nth nbins b 0 - upper ->
    append_bins fuel low width upper nbins b du = Ok (nbins', b', du') ->
    length b' = S nbins' /\ nth 0 b' 0 = nth 0 b 0 /\
    du' = nth nbins' b' 0 - upper /\ (length b <= length b')%nat.
Proof.
  induction fuel as [|fuel IH]; intros nbins b du nbins' b' du' Hlen Hdu.
  - rewrite append_bins_zero. destruct (Qlt_bool du 0); [discriminate|].
    intro H. injection H as <- <- <-. auto.
  - rewrite append_bins_step. destruct (Qlt_bool du 0).
    + rewrite (vec_at_appended b _ (S nbins) Hlen). cbn [bind].
      intro H. apply IH in H.
      * destruct H as (H1 & H2 & H3 & H4). repeat split; try assumption.
        -- rewrite H2. apply app_nth1. lia.
        -- rewrite length_app in H4. simpl in H4. lia.
      * rewrite length_app. simpl. lia.
      * f_equal. rewrite <- Hlen. symmetry. apply nth_middle.
    + intro H. injection H as <- <- <-. auto.
Qed.

Lemma append_bins_terminates (low width upper : Q) :
  0 < width ->
  forall (fuel nbins : nat) (b : list Q) (du : Q),
    length b = S nbins ->
    upper - low <= of_nat (nbins + fuel) * width ->
    (du < 0 -> (1 <= fuel)%nat) ->
    exists res, append_bins fuel low width upper nbins b du = Ok res.
Proof.
  intros Hw.
  induction fuel as [|fuel IH]; intros nbins b du Hlen Hbound Hdu.
  - rewrite append_bins_zero. destruct (Qlt_bool du 0) eqn:E.
    + apply Qlt_bool_iff in E. apply Hdu in E. lia.
    + eexists; reflexivity.
  - rewrite append_bins_step. destruct (Qlt_bool du 0) eqn:E.
    + rewrite (vec_at_appended b _ (S nbins) Hlen). cbn [bind].
      apply IH.
      * rewrite length_app. simpl. lia.
      * replace (S nbins + fuel)%nat with (nbins + S fuel)%nat by lia.
        exact Hbound.
      * intro Hneg.
        assert (Hlt : of_nat (S nbins) * width < of_nat (nbins + S fuel) * width)
          by lra.
        destruct fuel as [|fuel]; [|lia].
        exfalso. replace (nbins + 1)%nat with (S nbins) in Hlt by lia. lra.
    + eexists; reflexivity.
Qed.

Lemma append_bins_diverges (low width upper : Q) :
  width <= 0 -> low < upper ->
  forall (fuel nbins : nat) (b : list Q) (du : Q),
    length b = S nbins -> du < 0 ->
    append_bins fuel low width upper nbins b du = OutOfFuel.
Proof.
  intros Hw Hr.
  induction fuel as [|fuel IH]; intros nbins b du Hlen Hdu.
  - rewrite append_bins_zero.
    rewrite (proj2 (Qlt_bool_iff _ _) Hdu). reflexivity.
  - rewrite append_bins_step.
    rewrite (proj2 (Qlt_bool_iff _ _) Hdu).
    rewrite (vec_at_appended b _ (S nbins) Hlen). cbn [bind].
    apply IH.
    + rewrite length_app. simpl. lia.
    + assert (0 <= of_nat (S nbins)).
      { unfold of_nat. change 0 with (inject_Z 0). rewrite <- Zle_Qle. lia. }
      nra.
Qed.



Lemma CheckBreaksAreEquidistant_length (b : list Q) (e : bool) :
  CheckBreaksAreEquidistant b = Ok e -> (2 <= length b)%nat.
Proof.
  unfold CheckBreaksAreEquidistant, vec_at.
  destruct b as [|b0 [|b1 rest]]; simpl; try discriminate. lia.
Qed.

Lemma size_minus_one_length {A : Type} (v : list A) :
  (1 <= length v)%nat -> size_minus_one v = (length v - 1)%nat.
Proof. destruct v; simpl; lia. Qed.

Lemma Qdiv_checked_cases (x y : Q) :
  (~ y == 0 /\ Qdiv_checked x y = Ok (x / y)) \/
  (y == 0 /\ Qdiv_checked x y = Stuck DivisionByZero).
Proof.
  unfold Qdiv_checked. destruct (Qeq_bool y 0) eqn:E.
  - right. split; [apply Qeq_bool_iff; exact E | reflexivity].
  - left. split; [|reflexivity].
    intro H. apply Qeq_bool_iff in H. congruence.
Qed.

Lemma of_nat_zero (n : nat) : of_nat n == 0 -> n = 0%nat.
Proof.
  intro H. destruct n as [|n]; [reflexivity|].
  pose proof (of_nat_pos (S n) ltac:(lia)). lra.
Qed.

Lemma append_bins_cases (low width upper : Q) :
  forall (fuel nbins : nat) (b : list Q) (du : Q),
    length b = S nbins ->
    (exists res, append_bins fuel low width upper nbins b du = Ok res) \/
    append_bins fuel low width upper nbins b du = OutOfFuel.
Proof.
  induction fuel as [|fuel IH]; intros nbins b du Hlen.
  - rewrite append_bins_zero. destruct (Qlt_bool du 0).
    + right; reflexivity.
    + left; eexists; reflexivity.
  - rewrite append_bins_step. destruct (Qlt_bool du 0).
    + rewrite (vec_at_appended b _ (S nbins) Hlen). cbn [bind].
      apply IH. rewrite length_app. simpl. lia.
    + left; eexists; reflexivity.
Qed.

Lemma exactly_equidistant_near (w : Q) (l : list Q) :
  (2 <= length l)%nat -> exactly_equidistant w l -> gaps_near w l.
Proof.
  intros Hlen H. split.
  - apply H. lia.
  - intros i Hi. pose proof epsilon_pos.
    apply Qabs_Qle_condition. rewrite (H i Hi). split; lra.
Qed.

Lemma of_nat_S (i : nat) : of_nat (S i) == of_nat i + 1.
Proof.
  unfold of_nat. rewrite Nat2Z.inj_succ, <- Z.add_1_r, inject_Z_plus.
  reflexivity.
Qed.

Lemma exactly_equidistant_nth (w : Q) (l : list Q) :
  exactly_equidistant w l ->
  forall i, (i < length l)%nat -> nth i l 0 == nth 0 l 0 + of_nat i * w.
Proof.
  intros H. induction i as [|i IH]; intro Hi.
  - change (of_nat 0) with 0. ring.
  - pose proof (H i Hi) as Hg. rewrite IH in Hg by lia.
    rewrite of_nat_S. lra.
Qed.

Lemma exactly_equidistant_shift (w d : Q) (l : list Q) :
  exactly_equidistant w l -> exactly_equidistant w (ShiftBreaks l d).
Proof.
  intros H i Hi. rewrite ShiftBreaks_length in Hi.
  rewrite !ShiftBreaks_nth by lia. rewrite <- (H i Hi). ring.
Qed.

Lemma exactly_equidistant_removelast (w : Q) (l : list Q) :
  exactly_equidistant w l -> exactly_equidistant w (removelast l).
Proof.
  intros H i Hi. rewrite removelast_length_pred in Hi.
  rewrite !removelast_nth by lia. apply H. lia.
Qed.

Lemma exactly_equidistant_shrink (w d : Q) (l : list Q) :
  exactly_equidistant w l ->
  exactly_equidistant (w + d) (ShrinkOrExpandBreaks l d).
Proof.
  intros H i Hi. unfold ShrinkOrExpandBreaks in *.
  rewrite shrink_from_length in Hi.
  rewrite !shrink_from_nth by lia. cbn [Nat.add].
  rewrite of_nat_S, <- (H i Hi). ring.
Qed.

Lemma gaps_near_shrink (w d : Q) (l : list Q) :
  (2 <= length l)%nat ->
  gaps_near w l -> gaps_near (w + d) (ShrinkOrExpandBreaks l d).
Proof.
  intros Hlen [H0 H]. unfold ShrinkOrExpandBreaks. split.
  - rewrite !shrink_from_nth by lia. cbn [Nat.add].
    change (of_nat 1) with 1. change (of_nat 0) with 0. rewrite <- H0. ring.
  - intros i Hi. rewrite shrink_from_length in Hi.
    rewrite !shrink_from_nth by lia. cbn [Nat.add].
    apply Qle_trans with (Qabs (nth (S i) l 0 - nth i l 0 - w));
      [|apply H; exact Hi].
    apply Qle_lteq. right. apply Qabs_wd. rewrite of_nat_S. ring.
Qed.


Lemma append_bins_gaps (low width upper w : Q) :
  width == w ->
  forall (fuel nbins : nat) (l : list Q) (du : Q) nbins' l' du',
    length l = S nbins -> (1 <= nbins)%nat ->
    gaps_near w l ->
    Qabs (nth nbins l 0 - (low + of_nat nbins * width)) <= epsilon ->
    append_bins fuel low width upper nbins l du = Ok (nbins', l', du') ->
    gaps_near w l'.
Proof.
  intros Hw.
  induction fuel as [|fuel IH]; intros nbins l du nbins' l' du' Hlen Hn Hg Hlast.
  - rewrite append_bins_zero. destruct (Qlt_bool du 0); [discriminate|].
    intro H. injection H as <- <- <-. exact Hg.
  - rewrite append_bins_step. destruct (Qlt_bool du 0).
    + rewrite (vec_at_appended l _ (S nbins) Hlen). cbn [bind].
      apply IH.
      * rewrite length_app. simpl. lia.
      * lia.
      * destruct Hg as [H0 H]. split.
        -- rewrite !app_nth1 by lia. exact H0.
        -- intros i Hi. rewrite length_app in Hi. simpl in Hi.
           destruct (Nat.eq_dec i nbins) as [->|Hne].
           ++ rewrite <- Hlen at 1. rewrite nth_middle.
              rewrite app_nth1 by lia.
              apply Qabs_Qle_condition in Hlast. apply Qabs_Qle_condition.
              rewrite of_nat_S. destruct Hlast as [L U]. split; lra.
           ++ rewrite !app_nth1 by lia. apply H. lia.
      * rewrite <- Hlen at 1. rewrite nth_middle.
        pose proof epsilon_pos. apply Qabs_Qle_condition. split; lra.
    + intro H. injection H as <- <- <-. exact Hg.
Qed.

(** What a run of [BalanceBreaksWithRange] on checked breaks comes to. When it
    returns, the first break is at the lower end of the range and the last
    at the upper end, both within [epsilon], and breaks with exactly equal
    gaps have stayed equidistant. It throws nothing more, divides by zero
    only on two breaks, and runs out of fuel only inside its loop. *)
Lemma Balance_walk (fuel : nat) (b : list Q) (r : Q * Q) (w : Q) :
  CheckBreaksAreEquidistant b = Ok true ->
  match BalanceBreaksWithRange fuel b r with
  | Ok (b', changed) =>
      (2 <= length b')%nat /\
      isequalthan 1 (nth 0 b' 0 - fst r) 0 = true /\
      isequalthan 1 (nth (length b' - 1) b' 0 - snd r) 0 = true /\
      (changed = false -> b' = b) /\
      (exactly_equidistant w b ->
       (2 <= length b')%nat /\ exists w', gaps_near w' b')
  | Throw _ => False
  | Stuck s => s = DivisionByZero /\ length b = 2%nat
  | OutOfFuel =>
      exists nbins b2 du, length b2 = S nbins /\
        append_bins fuel (fst r) (nth 1 b 0 - nth 0 b 0) (snd r) nbins b2 du
        = OutOfFuel
  end.
Proof.
  intro Hc. pose proof (CheckBreaksAreEquidistant_length b true Hc) as Hlen.
  destruct r as [low upper].
  unfold BalanceBreaksWithRange. rewrite Hc. cbn [bind negb fst snd].
  rewrite size_minus_one_length by lia.
  rewrite (vec_at_nth b 1 0) by lia.
  rewrite (vec_at_nth b 0 0) by lia.
  rewrite (vec_at_nth b (length b - 1) 0) by lia.
  cbn [bind].
  set (n := (length b - 1)%nat).
  assert (Hn : (1 <= n)%nat) by (subst n; lia).
  set (width := nth 1 b 0 - nth 0 b 0).
  set (lowZ := isequalthan 1 (nth 0 b 0 - low) 0).
  set (bs := if negb lowZ then ShiftBreaks b (- (nth 0 b 0 - low)) else b).
  assert (Hbs : length bs = S n /\
                isequalthan 1 (nth 0 bs 0 - low) 0 = true /\
                (exactly_equidistant w b -> exactly_equidistant w bs)).
  { subst bs. destruct lowZ eqn:E; cbn [negb].
    - repeat split; [lia | exact E | auto].
    - rewrite ShiftBreaks_length. repeat split; [lia | |].
      + rewrite ShiftBreaks_nth by lia. apply isequalthan_zero. ring.
      + apply exactly_equidistant_shift. }
  destruct Hbs as (Hbs_len & Hbs_front & Hbs_exact).
  destruct (lowZ && isequalthan 1 (nth n b 0 - upper) 0) eqn:Both.
  { apply andb_true_iff in Both. destruct Both as [E1 E2].
    repeat split; auto; try lia.
    exists w. apply exactly_equidistant_near; assumption. }
  clearbody bs. clear Both.
  rewrite (vec_at_nth bs n 0) by lia. cbn [bind].
  unfold CheckAndUpdateDiff at 1. cbv zeta.
  destruct (isequalthan 1 (nth n bs 0 - upper) 0) eqn:UpZ.
  { rewrite Hbs_len. replace (S n - 1)%nat with n by lia.
    repeat split; auto; try lia; try discriminate.
    exists w. apply exactly_equidistant_near; [lia | auto]. }
  rewrite (vec_at_nth bs (n - 1) 0) by lia. cbn [bind].
  match goal with
  | |- context [bind ?m _] =>
      assert (Hx : match m with
                   | Ok (nb, b2) =>
                       length b2 = S nb /\ (1 <= nb)%nat /\
                       isequalthan 1 (nth 0 b2 0 - low) 0 = true /\
                       ((nb = n /\ b2 = bs) \/
                        (isequalthan 1 (nth nb b2 0 - upper) 0 = true /\
                         (exactly_equidistant w bs ->
                          exists w', exactly_equidistant w' b2)))
                   | Throw _ => False
                   | Stuck s => s = DivisionByZero /\ length b = 2%nat
                   | OutOfFuel => False
                   end);
      [ | destruct m as [[nbins2 b2]| | |] ]
  end.
  { match goal with |- context [if ?c then _ else _] => destruct c end.
    - destruct (Qdiv_checked_cases (nth (n - 1) bs 0 - upper) (of_nat (n - 1)))
        as [[Hnz ->] | [Hz ->]]; cbn [bind];
        [|apply of_nat_zero in Hz; split; [reflexivity | lia]].
      assert (n - 1 <> 0)%nat by (intro E0; apply Hnz; rewrite E0; reflexivity).
      unfold ShrinkOrExpandBreaks. rewrite shrink_from_length.
      rewrite removelast_length_pred. split; [lia|]. split; [lia|].
      rewrite !shrink_from_nth by (rewrite removelast_length_pred; lia).
      rewrite !removelast_nth by lia. split.
      + rewrite <- Hbs_front. apply isequalthan_proper.
        change (of_nat (0 + 0)) with 0. ring.
      + right. split.
        * apply isequalthan_zero. cbn [Nat.add]. field. exact Hnz.
        * intro Hex. eexists.
          apply (exactly_equidistant_shrink w).
          apply exactly_equidistant_removelast. exact Hex.
    - repeat split; try assumption; try lia. left; split; reflexivity. }
  - destruct Hx as (Hb2_len & Hnb2 & Hb2_front & Hb2). cbn [bind].
    rewrite (vec_at_nth b2 nbins2 0) by lia. cbn [bind].
    unfold CheckAndUpdateDiff at 1. cbv zeta.
    destruct (isequalthan 1 (nth nbins2 b2 0 - upper) 0) eqn:UpZ2.
    { rewrite Hb2_len. replace (S nbins2 - 1)%nat with nbins2 by lia.
      repeat split; auto; try lia; try discriminate.
      destruct Hb2 as [[-> ->] | [_ Hb2]].
      - exists w. apply exactly_equidistant_near; [lia | auto].
      - destruct (Hb2 (Hbs_exact H)) as [w' Hw'].
        exists w'. apply exactly_equidistant_near; [lia | exact Hw']. }
    destruct Hb2 as [[-> ->] | [Hb2 _]]; [|congruence].
    destruct (append_bins_cases low width upper fuel n bs
                (nth n bs 0 - upper) Hb2_len)
      as [[[[nbins3 b3] du3] Happ] | Happ]; rewrite Happ; cbn [bind].
    + destruct (append_bins_post _ _ _ _ _ _ _ _ _ _ Hb2_len eq_refl Happ)
        as (Hb3_len & Hb3_front & Hdu3 & Hgrow).
      assert (Hb3_gaps : exactly_equidistant w b -> gaps_near w b3).
      { intro Hex.
        assert (Hwidth : width == w) by (apply Hex; lia).
        apply (append_bins_gaps low width upper w Hwidth fuel n bs
                 (nth n bs 0 - upper) nbins3 b3 du3 Hb2_len Hnb2);
          [apply exactly_equidistant_near; [lia | auto] | | exact Happ].
        apply isequalthan_1_iff in Hb2_front.
        rewrite (exactly_equidistant_nth w bs (Hbs_exact Hex) n) by lia.
        apply Qabs_Qle_condition. rewrite Hwidth.
        destruct Hb2_front as [L U]. split; lra. }
      destruct (isequalthan 1 du3 0) eqn:UpZ3.
      { rewrite Hb3_len. replace (S nbins3 - 1)%nat with nbins3 by lia.
        rewrite Hb3_front, <- Hdu3.
        repeat split; auto; try lia; try discriminate.
        exists w. auto. }
      destruct (Qdiv_checked_cases du3 (of_nat nbins3))
        as [[Hnz ->] | [Hz _]];
        cbn [bind]; [|apply of_nat_zero in Hz; exfalso; lia].
      unfold ShrinkOrExpandBreaks. rewrite shrink_from_length, Hb3_len.
      replace (S nbins3 - 1)%nat with nbins3 by lia.
      rewrite !shrink_from_nth by lia.
      repeat split; try lia; try discriminate.
      * rewrite <- Hb2_front, <- Hb3_front. apply isequalthan_proper.
        change (of_nat (0 + 0)) with 0. ring.
      * apply isequalthan_zero. rewrite Hdu3. cbn [Nat.add]. field. exact Hnz.
      * eexists. apply gaps_near_shrink; [lia | auto].
    + exists n, bs, (nth n bs 0 - upper). split; assumption.
  - exact Hx.
  - exact Hx.
  - destruct Hx.
Qed.

Lemma Balance_run (fuel : nat) (b : list Q) (r : Q * Q) (w : Q) :
  CheckBreaksAreEquidistant b = Ok true ->
  match BalanceBreaksWithRange fuel b r with
  | Ok (b', changed) =>
      (1 <= length b')%nat /\
      isequalthan 1 (nth 0 b' 0 - fst r) 0 = true /\
      isequalthan 1 (nth (length b' - 1) b' 0 - snd r) 0 = true /\
      (changed = false -> b' = b) /\
      (exactly_equidistant w b ->
       (2 <= length b')%nat /\ exists w', gaps_near w' b')
  | Throw _ => False
  | Stuck s => s = DivisionByZero /\ length b = 2%nat
  | OutOfFuel =>
      exists nbins b2 du, length b2 = S nbins /\
        append_bins fuel (fst r) (nth 1 b 0 - nth 0 b 0) (snd r) nbins b2 du
        = OutOfFuel
  end.
Proof.
  intro Hc. pose proof (Balance_walk fuel b r w Hc) as H.
  destruct (BalanceBreaksWithRange fuel b r) as [[b' changed]|e|s|];
    try exact H.
  destruct H as [Hlen H]. split; [lia | exact H].
Qed.

Lemma append_bound_enough (b : list Q) (r : Q * Q) :
  nth 0 b 0 < nth 1 b 0 ->
  snd r - fst r <= of_nat (append_bound b r) * (nth 1 b 0 - nth 0 b 0).
Proof.
  intro Hw. unfold append_bound.
  set (w := nth 1 b 0 - nth 0 b 0). assert (Hpos : 0 < w) by (subst w; lra).
  set (q := (snd r - fst r) / w).
  assert (E : snd r - fst r == q * w) by (subst q; field; lra).
  rewrite E. apply Qmult_le_compat_r; [|lra].
  apply Qle_trans with (inject_Z (Qceiling q)); [apply Qle_ceiling|].
  unfold of_nat. rewrite <- Zle_Qle. lia.
Qed.

Lemma of_nat_le (n m : nat) : (n <= m)%nat -> of_nat n <= of_nat m.
Proof. intro H. unfold of_nat. rewrite <- Zle_Qle. lia. Qed.

(** C1, as the code has it. On breaks that pass the equidistance check and
    whose first gap is positive, [BalanceBreaksWithRange] ends for every
    range: [append_bound] iterations, a number fixed by the range and the
    first gap, are enough for its loop. It returns the balanced breaks,
    except that on two breaks reaching far beyond the range it drops one,
    which leaves it with zero bins and a division by their number. (With a
    first gap of zero or less the loop does not end.) *)
Theorem BalanceBreaksWithRange_terminates (b : list Q) (r : Q * Q)
    (fuel : nat) :
  CheckBreaksAreEquidistant b = Ok true ->
  nth 0 b 0 < nth 1 b 0 ->
  (append_bound b r <= fuel)%nat ->
  (exists b' changed, BalanceBreaksWithRange fuel b r = Ok (b', changed)) \/
  (length b = 2%nat /\
   BalanceBreaksWithRange fuel b r = Stuck DivisionByZero).
Proof.
  intros Hc Hw Hfuel.
  pose proof (Balance_run fuel b r 0 Hc) as Hrun.
  destruct (BalanceBreaksWithRange fuel b r) as [[b' changed]|e|s|].
  - left. exists b', changed. reflexivity.
  - destruct Hrun.
  - right. destruct Hrun as [-> Hlen]. split; [exact Hlen | reflexivity].
  - exfalso. destruct Hrun as (nbins & b2 & du & Hlen & Hout).
    destruct (append_bins_terminates (fst r) (nth 1 b 0 - nth 0 b 0) (snd r)
                ltac:(lra) fuel nbins b2 du Hlen) as [res Hres].
    + apply Qle_trans with (of_nat (append_bound b r) * (nth 1 b 0 - nth 0 b 0)).
      * apply append_bound_enough. exact Hw.
      * apply Qmult_le_compat_r; [|lra]. apply of_nat_le. lia.
    + intros _. unfold append_bound in Hfuel. lia.
    + congruence.
Qed.

Lemma Balance_Ok_checked (fuel : nat) (b b' : list Q) (r : Q * Q) (c : bool) :
  BalanceBreaksWithRange fuel b r = Ok (b', c) ->
  CheckBreaksAreEquidistant b = Ok true.
Proof.
  unfold BalanceBreaksWithRange.
  destruct (CheckBreaksAreEquidistant b) as [[|]| | |]; cbn [bind negb];
    try discriminate. reflexivity.
Qed.

Lemma isequalthan_0_iff (x : Q) :
  isequalthan 1 x 0 = true <-> Qabs x <= epsilon.
Proof.
  rewrite isequalthan_iff. change (of_nat 1) with 1.
  assert (E : x - 0 == x) by ring. rewrite E.
  assert (E1 : 1 * epsilon == epsilon) by ring. rewrite E1. reflexivity.
Qed.

Lemma Balance_balanced (fuel : nat) (b : list Q) (r : Q * Q) :
  CheckBreaksAreEquidistant b = Ok true ->
  isequalthan 1 (nth 0 b 0 - fst r) 0 = true ->
  isequalthan 1 (nth (length b - 1) b 0 - snd r) 0 = true ->
  BalanceBreaksWithRange fuel b r = Ok (b, false).
Proof.
  intros Hc Hfront Hback.
  pose proof (CheckBreaksAreEquidistant_length b true Hc) as Hlen.
  unfold BalanceBreaksWithRange. rewrite Hc. cbn [bind negb].
  rewrite size_minus_one_length by lia.
  rewrite (vec_at_nth b 1 0) by lia.
  rewrite (vec_at_nth b 0 0) by lia.
  rewrite (vec_at_nth b (length b - 1) 0) by lia.
  cbn [bind]. rewrite Hfront, Hback. reflexivity.
Qed.



Lemma CheckBreaksAreEquidistant_cases (b : list Q) :
  (exists x, CheckBreaksAreEquidistant b = Ok x /\ (2 <= length b)%nat) \/
  (CheckBreaksAreEquidistant b = Stuck OutOfBoundsAccess /\
   (length b < 2)%nat).
Proof.
  destruct b as [|b0 [|b1 rest]].
  - right. split; [reflexivity | simpl; lia].
  - right. split; [reflexivity | simpl; lia].
  - left. unfold CheckBreaksAreEquidistant. cbn [vec_at nth_error bind].
    eexists. split; [reflexivity | simpl; lia].
Qed.

Lemma Balance_throw_iff (fuel : nat) (b : list Q) (r : Q * Q)
    (e : histo_error) :
  BalanceBreaksWithRange fuel b r = Throw e <->
  e = NonEquidistantBreaks /\ CheckBreaksAreEquidistant b = Ok false.
Proof.
  destruct (CheckBreaksAreEquidistant_cases b) as [([|] & Hc & _)|[Hc _]].
  - pose proof (Balance_walk fuel b r 0 Hc) as Hpost. split.
    + intro H. rewrite H in Hpost. contradiction.
    + intros [_ H]. rewrite Hc in H. discriminate H.
  - unfold BalanceBreaksWithRange. rewrite Hc. cbn [bind negb]. split.
    + intro H. injection H as <-. split; reflexivity.
    + intros [-> _]. reflexivity.
  - unfold BalanceBreaksWithRange. rewrite Hc. cbn [bind]. split.
    + intro H. discriminate H.
    + intros [_ H]. discriminate H.
Qed.

Lemma Balance_out_of_bounds_iff (fuel : nat) (b : list Q) (r : Q * Q) :
  BalanceBreaksWithRange fuel b r = Stuck OutOfBoundsAccess <->
  (length b < 2)%nat.
Proof.
  destruct (CheckBreaksAreEquidistant_cases b) as [([|] & Hc & Hlen)|[Hc Hlen]].
  - pose proof (Balance_walk fuel b r 0 Hc) as Hpost. split.
    + intro H. rewrite H in Hpost. destruct Hpost as [Hs _]. discriminate Hs.
    + intro H. lia.
  - unfold BalanceBreaksWithRange. rewrite Hc. cbn [bind negb]. split.
    + intro H. discriminate H.
    + intro H. lia.
  - unfold BalanceBreaksWithRange. rewrite Hc. cbn [bind]. split.
    + intros _. exact Hlen.
    + intros _. reflexivity.
Qed.


Lemma FillCounts_preserves (data : list Q) :
  forall (h h' : Histo Z) (r : outcome unit),
    FillCounts data h = (r, h') ->
    breaks h' = breaks h /\ bins h' = bins h /\
    length (counts h') = length (counts h).
Proof.
  induction data as [|v data IH]; intros h h' r H; simpl in H.
  - injection H as <- <-. auto.
  - destruct (IndexFromValue h v) as [index|e| |];
      try (injection H as <- <-; auto).
    destruct (increment_count index h) as [r1 h1] eqn:Inc.
    pose proof (increment_count_inv _ _ _ _ Inc)
      as (Hb & Hn & _ & Hl & [->|[-> ->]]).
    + apply IH in H. destruct H as (H1 & H2 & H3).
      repeat split; congruence.
    + injection H as <- <-. auto.
Qed.

Lemma constructed_consistent (data : list Q) (this h : Histo Z) :
  length (breaks this) = S (bins this) ->
  constructed (FillCounts data (ResetCounts this)) = Ok h ->
  consistent h.
Proof.
  intros Hb H.
  destruct (FillCounts data (ResetCounts this)) as [r h'] eqn:F.
  apply FillCounts_preserves in F. destruct F as (F1 & F2 & F3).
  destruct r; simpl in H; try discriminate. injection H as <-.
  unfold consistent. rewrite F1, F2, F3. simpl.
  rewrite repeat_length. split; [exact Hb | reflexivity].
Qed.

Lemma CalculateBreaks_lengths (fuel : nat) (this h : Histo Z)
    (data : list Q) (rang : Q * Q) (method : breaks_method) :
  CalculateBreaks sqrt cbrt fuel this data rang method = Ok h ->
  (1 <= length (breaks h))%nat.
Proof.
  destruct method; simpl; [|discriminate].
  unfold ScottMethod.
  destruct (variance_welford data) as [sigma| | |]; cbn [bind];
    try discriminate.
  destruct (Qdiv_checked _ _) as [width| | |]; cbn [bind]; try discriminate.
  destruct (Qdiv_checked _ _) as [quotient| | |]; cbn [bind];
    try discriminate.
  destruct (to_ulong _) as [nbins| | |]; cbn [bind]; try discriminate.
  destruct (BalanceBreaksWithRange _ _ _) as [[b' c]| | |] eqn:B; cbn [bind];
    try discriminate.
  intro H. injection H as <-. simpl.
  pose proof (Balance_Ok_checked _ _ _ _ _ B) as Hc.
  pose proof (Balance_run fuel _ (range this) 0 Hc) as Hpost.
  rewrite B in Hpost. apply Hpost.
Qed.

Lemma size_minus_one_S {A : Type} (v : list A) :
  (1 <= length v)%nat -> length v = S (size_minus_one v).
Proof. destruct v; simpl; lia. Qed.

Lemma transform_div_length (sum : Q) :
  forall (src : list Z) (dst c : list Q),
    transform_div sum src dst = Ok c -> length c = length dst.
Proof.
  induction src as [|d src IH]; intros dst c H; simpl in H.
  - injection H as <-. reflexivity.
  - destruct (Qdiv_checked (inject_Z d) sum) as [q| | |]; cbn [bind] in H;
      try discriminate.
    destruct dst as [|x dst]; [discriminate|].
    destruct (transform_div sum src dst) as [rest| | |] eqn:T; cbn [bind] in H;
      try discriminate.
    injection H as <-. simpl. f_equal. apply (IH _ _ T).
Qed.

Lemma NormalizeByArea_consistent (h : Histo Z) (hn : Histo Q) :
  consistent h -> NormalizeByArea h = Ok hn -> consistent hn.
Proof.
  intros [Hb Hc]. unfold NormalizeByArea.
  destruct (area_sum h 0 (bins h) 0) as [s| | |]; cbn [bind];
    try discriminate.
  destruct (transform_div s (counts h) _) as [c| | |] eqn:T; cbn [bind];
    try discriminate.
  intro H. injection H as <-.
  apply transform_div_length in T. unfold consistent. simpl in *.
  rewrite T, repeat_length. split; [exact Hb | reflexivity].
Qed.

Lemma built_consistent (h : Histo Z) : built sqrt cbrt h -> consistent h.
Proof.
  induction 1 as [fuel data method h H | fuel data input_range method h H
                  | data input_breaks h H | h Hb IH | h h' data Hb IH H
                  | h h' index Hb IH H | h h' index Hb IH H
                  | h h' index v Hb IH H].
  - unfold Histo_data in H.
    destruct (minmax_element data) as [r| | |]; cbn [bind] in H;
      try discriminate.
    destruct (CalculateBreaks _ _ _ _ _ _ _) as [this| | |] eqn:Cb;
      cbn [bind] in H; try discriminate.
    apply CalculateBreaks_lengths in Cb.
    apply (constructed_consistent data _ h) in H; [exact H|].
    simpl. apply size_minus_one_S. exact Cb.
  - unfold Histo_data_range in H.
    destruct (CalculateBreaks _ _ _ _ _ _ _) as [this| | |] eqn:Cb;
      cbn [bind] in H; try discriminate.
    apply CalculateBreaks_lengths in Cb.
    apply (constructed_consistent data _ h) in H; [exact H|].
    simpl. apply size_minus_one_S. exact Cb.
  - unfold Histo_data_breaks in H. simpl in H.
    destruct input_breaks as [|b0 rest]; [discriminate|]. simpl in H.
    destruct (increasing_from b0 rest); simpl in H; [|discriminate].
    destruct (vec_at (b0 :: rest) (length rest)) as [bl| | |];
      cbn [bind] in H; try discriminate.
    apply (constructed_consistent data _ h) in H; [exact H|].
    reflexivity.
  - destruct IH as [I1 I2]. unfold consistent, ResetCounts. simpl.
    rewrite repeat_length. split; [exact I1 | reflexivity].
  - destruct IH as [I1 I2]. apply FillCounts_preserves in H.
    destruct H as (H1 & H2 & H3). unfold consistent. rewrite H1, H2, H3.
    split; assumption.
  - destruct IH as [I1 I2]. unfold Increase in H.
    destruct (nth_error (counts h) index) as [c|]; [|discriminate].
    destruct (c =? count_max)%Z; [discriminate|].
    apply increment_count_inv in H. destruct H as (H1 & H2 & _ & H3 & _).
    unfold consistent. rewrite H1, H2, H3. split; assumption.
  - destruct IH as [I1 I2]. unfold Decrease in H.
    destruct (nth_error (counts h) index) as [c|]; [|discriminate].
    destruct (c <=? 0)%Z; [discriminate|].
    injection H as <-. unfold consistent. simpl.
    rewrite vec_set_length. split; assumption.
  - destruct IH as [I1 I2]. unfold SetCount in H.
    destruct (bins h <? index)%nat; [discriminate|].
    destruct (index <? length (counts h))%nat; [|discriminate].
    injection H as <-. unfold consistent. simpl.
    rewrite vec_set_length. split; assumption.
Qed.

(** C8. Every histogram that a constructor returned, or that a public
    member function returned normally on such a histogram, has one break
    more than bins and one count per bin; so has the histogram that
    [NormalizeByArea] makes of it. *)
Theorem length_consistency (h : Histo Z) :
  built sqrt cbrt h ->
  consistent h /\
  (forall hn, NormalizeByArea h = Ok hn -> consistent hn).
Proof.
  intro Hb. pose proof (built_consistent h Hb) as Hc.
  split; [exact Hc|].
  intros hn. apply NormalizeByArea_consistent. exact Hc.
Qed.

End Properties.

(** * The theorems at the data of the tests *)

Lemma IndexFromValue_in_bin_witness :
  exists i, IndexFromValue withBreaks_histo 20 = Ok i /\
    (i < 3)%nat /\
    nth i [1; 2; 15; 20] 0 <= 20 /\
    (20 < nth (S i) [1; 2; 15; 20] 0 \/ i = 2%nat) /\
    20 <= nth (S i) [1; 2; 15; 20] 0.
Proof.
  apply (IndexFromValue_in_bin withBreaks_histo 20).
  - reflexivity.
  - simpl; lia.
  - reflexivity.
  - split; vm_compute; discriminate.
Defined.

(** C6 as claimed fails on [HistoDoubleScott.IndexFromValueWorks]: the value
    [1.0 - epsilon] is within [epsilon] of the first break [1.0], and it is
    rejected. *)
Lemma IndexFromValue_below_front_rejected :
  isequalthan 1 (1 - epsilon) (nth 0 (breaks Scott_histo) 0) = true /\
  IndexFromValue Scott_histo (1 - epsilon) = Throw ValueOutOfBonds.
Proof. split; reflexivity. Qed.

Lemma IndexFromValue_out_of_bonds_witness :
  (IndexFromValue Scott_histo (5 + epsilon) = Throw ValueOutOfBonds <->
     5 + epsilon < 1 \/ 5 + epsilon < 5 + epsilon) /\
  IndexFromValue Scott_histo (5 + epsilon) = Ok 0%nat.
Proof.
  destruct (IndexFromValue_out_of_bonds Scott_histo (5 + epsilon) eq_refl)
    as [Hiff Hlast].
  split.
  - exact Hiff.
  - apply Hlast.
    + reflexivity.
    + simpl; lia.
    + split; vm_compute; discriminate.
Defined.

(** C2 as claimed fails on the breaks of [HistoConstructor.withBreaks]: the
    sample [{1.0, -1.0}] makes [FillCounts] throw at [-1.0], after [1.0] has
    been counted. *)
Lemma FillCounts_commits_before_throw :
  exists h',
    FillCounts [1; -1] withBreaks_histo = (Throw ValueOutOfBonds, h') /\
    counts withBreaks_histo = [0; 0; 0]%Z /\
    counts h' = [1; 0; 0]%Z.
Proof.
  exists (set_counts withBreaks_histo [1; 0; 0]%Z).
  repeat split.
Qed.

Lemma FillCounts_throw_keeps_prefix_witness :
  exists pre v post,
    [1; -1] = pre ++ v :: post /\
    FillCounts pre withBreaks_histo =
      (Ok tt, set_counts withBreaks_histo [1; 0; 0]%Z) /\
    IndexFromValue withBreaks_histo v = Throw ValueOutOfBonds /\
    ValueOutOfBonds = ValueOutOfBonds /\
    breaks (set_counts withBreaks_histo [1; 0; 0]%Z) = breaks withBreaks_histo /\
    bins (set_counts withBreaks_histo [1; 0; 0]%Z) = bins withBreaks_histo /\
    (pre = [] -> set_counts withBreaks_histo [1; 0; 0]%Z = withBreaks_histo) /\
    (Forall (fun c => (0 <= c)%Z) (counts withBreaks_histo) ->
     (Zsum (counts withBreaks_histo) + Z.of_nat (length pre) <= count_max)%Z ->
     Zsum (counts (set_counts withBreaks_histo [1; 0; 0]%Z)) =
     (Zsum (counts withBreaks_histo) + Z.of_nat (length pre))%Z /\
     (pre <> [] ->
      counts (set_counts withBreaks_histo [1; 0; 0]%Z)
      <> counts withBreaks_histo)).
Proof.
  apply (FillCounts_throw_keeps_prefix [1; -1] withBreaks_histo).
  reflexivity.
Defined.

(** C5 as claimed fails at the index [bins]: none of the three mutators
    throws there, each goes to [counts[3]] of a vector of three counts. *)
Lemma count_mutators_at_bins_unchecked :
  length (counts withBreaks_histo) = 3%nat /\
  fst (Increase 3 withBreaks_histo) = Stuck OutOfBoundsAccess /\
  fst (Decrease 3 withBreaks_histo) = Stuck OutOfBoundsAccess /\
  fst (SetCount 3 2 withBreaks_histo) = Stuck OutOfBoundsAccess.
Proof. repeat split. Qed.

Lemma count_mutators_index_check_witness :
  SetCount 100 2 withBreaks_histo = (Throw SetCountOutOfBounds, withBreaks_histo) /\
  Increase 100 withBreaks_histo = (Stuck OutOfBoundsAccess, withBreaks_histo) /\
  Decrease 100 withBreaks_histo = (Stuck OutOfBoundsAccess, withBreaks_histo).
Proof.
  destruct (count_mutators_index_check withBreaks_histo 100 2 eq_refl)
    as [Hset Hincr].
  split.
  - apply Hset. simpl; lia.
  - apply Hincr. simpl; lia.
Defined.

(** C4 as claimed fails on two bins of width two holding one value each: the
    new counts are [1/4] each, not [1 * 2 / 4], and with equal widths they
    sum to [1/2], not to one. *)
Lemma NormalizeByArea_not_area_fraction :
  Histo_data_breaks [1; 3] [0; 2; 4] = Ok two_wide_bins /\
  exists hn, NormalizeByArea two_wide_bins = Ok hn /\
    counts hn = [1 # 4; 1 # 4] /\
    ~ nth 0 (counts hn) 0 ==
        inject_Z (nth 0 (counts two_wide_bins) 0%Z) * bin_width two_wide_bins 0
        / total_area two_wide_bins /\
    bin_width two_wide_bins 0 == bin_width two_wide_bins 1 /\
    ~ Qsum_range 0 2 (fun i => nth i (counts hn) 0) == 1.
Proof.
  split; [reflexivity|].
  exists (mkHisto (0, 0) [0; 2; 4] 2%nat [1 # 4; 1 # 4] EmptyString).
  repeat split; try (vm_compute; intro H; discriminate H).
Qed.

Lemma NormalizeByArea_density_witness :
  exists hn, NormalizeByArea two_wide_bins = Ok hn /\
    breaks hn = [0; 2; 4] /\ bins hn = 2%nat /\
    length (counts hn) = 2%nat /\
    (forall i, (i < 2)%nat ->
       nth i (counts hn) 0 == inject_Z (nth i [1; 1]%Z 0%Z) / total_area two_wide_bins) /\
    Qsum_range 0 2 (fun i => nth i (counts hn) 0 * bin_width two_wide_bins i) == 1 /\
    (forall w, (forall i, (i < 2)%nat -> bin_width two_wide_bins i == w) ->
       Qsum_range 0 2 (fun i => nth i (counts hn) 0) * w == 1).
Proof.
  apply (NormalizeByArea_density two_wide_bins).
  - split; reflexivity.
  - vm_compute. intro H; discriminate H.
Defined.

(** C10 as claimed fails when the first break is zero, as in
    [NormalizeByArea.withJustData] and here: the default range [(0, 0)] of
    the result then does start at its first break. *)
Lemma NormalizeByArea_range_at_front :
  exists hn, NormalizeByArea two_wide_bins = Ok hn /\
    fst (range hn) == nth 0 (breaks hn) 0.
Proof.
  exists (mkHisto (0, 0) [0; 2; 4] 2%nat [1 # 4; 1 # 4] EmptyString).
  split; reflexivity.
Qed.

Lemma NormalizeByArea_default_members_witness :
  range (mkHisto (0, 0) [0; 2; 4] 2%nat [1 # 4; 1 # 4] EmptyString) = (0, 0) /\
  name (mkHisto (0, 0) [0; 2; 4] 2%nat [1 # 4; 1 # 4] EmptyString) = EmptyString /\
  bins (mkHisto (0, 0) [0; 2; 4] 2%nat [1 # 4; 1 # 4] EmptyString) = bins two_wide_bins /\
  breaks (mkHisto (0, 0) [0; 2; 4] 2%nat [1 # 4; 1 # 4] EmptyString) = breaks two_wide_bins /\
  (fst (range (mkHisto (0, 0) [0; 2; 4] 2%nat [1 # 4; 1 # 4] EmptyString))
   == nth 0 (breaks (mkHisto (0, 0) [0; 2; 4] 2%nat [1 # 4; 1 # 4] EmptyString)) 0
   <-> nth 0 (breaks two_wide_bins) 0 == 0).
Proof.
  apply (NormalizeByArea_default_members two_wide_bins).
  reflexivity.
Defined.

Lemma Mean_divides_by_bins_witness :
  exists m, Mean withBreaks_filled = Ok m /\ m == Mean_spec withBreaks_filled.
Proof.
  apply (Mean_divides_by_bins withBreaks_filled).
  - split; reflexivity.
  - simpl; lia.
Defined.

(** [HistoDoubleScott.MembersAreCorrect], with the two roots the data needs:
    the constructor builds the breaks [{1.0, 5.0}] and counts three values. *)
Lemma Histo_data_HistoDoubleScott :
  exists h,
    Histo_data sqrt_HistoDoubleScott cbrt_HistoDoubleScott 2 [1; 3; 5] Scott
    = Ok h /\
    range h = (1, 5) /\ bins h = 1%nat /\ counts h = [3]%Z /\
    Forall2 Qeq (breaks h) [1; 5].
Proof.
  eexists. split; [vm_compute; reflexivity|].
  repeat split. repeat constructor; reflexivity.
Qed.

(** C1 as claimed fails on two equal breaks: they pass the equidistance
    check, and the loop that appends edges runs out of any fuel. *)
Lemma BalanceBreaksWithRange_zero_width_loops :
  CheckBreaksAreEquidistant [1; 1] = Ok true /\
  forall fuel, BalanceBreaksWithRange fuel [1; 1] (1, 5) = OutOfFuel.
Proof.
  split; [reflexivity|]. intro fuel.
  cbv -[append_bins].
  rewrite append_bins_diverges; try reflexivity.
  intro H; discriminate H.
Qed.

Lemma BalanceBreaksWithRange_terminates_witness :
  (exists b' changed,
     BalanceBreaksWithRange 4 [0; 1] (0, 3) = Ok (b', changed)) \/
  (length [0; 1] = 2%nat /\
   BalanceBreaksWithRange 4 [0; 1] (0, 3) = Stuck DivisionByZero).
Proof.
  apply (BalanceBreaksWithRange_terminates [0; 1] (0, 3) 4).
  - reflexivity.
  - reflexivity.
  - vm_compute. apply le_n.
Defined.



Lemma length_consistency_witness :
  consistent withBreaks_filled /\
  (forall hn, NormalizeByArea withBreaks_filled = Ok hn -> consistent hn).
Proof.
  apply (length_consistency sqrt_HistoDoubleScott cbrt_HistoDoubleScott).
  apply (built_data_breaks _ _ [1; 1; 2; 3; 19] [1; 2; 15; 20]).
  reflexivity.
Defined.

(** * Further properties of the code *)

Section FurtherProperties.
Context {P : Precision}.
Variable sqrt : Q -> Q.
Variable cbrt : Q -> Q.

(** ** The checks of breaks and the generators *)

Lemma increasing_from_complete :
  forall (rest : list Q) (prev : Q),
    (forall i, (S i < length (prev :: rest))%nat ->
       nth i (prev :: rest) 0 < nth (S i) (prev :: rest) 0) ->
    increasing_from prev rest = true.
Proof.
  induction rest as [|x rest IH]; intros prev H.
  - reflexivity.
  - cbn [increasing_from].
    pose proof (H 0%nat ltac:(simpl; lia)) as H0. cbn [nth] in H0.
    destruct (Qle_bool x prev) eqn:E.
    + apply Qle_bool_iff in E. exfalso. apply (Qlt_not_le _ _ H0 E).
    + apply IH. intros i Hi. apply (H (S i)). simpl in *. lia.
Qed.

Lemma increasing_complete (b : list Q) :
  b <> [] ->
  (forall i, (S i < length b)%nat -> nth i b 0 < nth (S i) b 0) ->
  CheckIfMonotonicallyIncreasing b = Ok true.
Proof.
  intros Hne H. destruct b as [|b0 rest]; [contradiction|].
  unfold CheckIfMonotonicallyIncreasing. f_equal.
  apply increasing_from_complete. exact H.
Qed.

Lemma increasing_from_false :
  forall (rest : list Q) (prev : Q),
    increasing_from prev rest = false ->
    exists i, (S i < length (prev :: rest))%nat /\
      nth (S i) (prev :: rest) 0 <= nth i (prev :: rest) 0.
Proof.
  induction rest as [|x rest IH]; intros prev H; [discriminate|].
  cbn [increasing_from] in H. destruct (Qle_bool x prev) eqn:E.
  - exists 0%nat. split; [simpl; lia|]. apply Qle_bool_iff. exact E.
  - destruct (IH x H) as (i & Hi & Hle). exists (S i).
    split; [simpl in *; lia | exact Hle].
Qed.

(** X1. [CheckIfMonotonicallyIncreasing] returns [true] exactly when the
    breaks are not empty and every break is strictly greater than the one
    before it, and [false] exactly when some break is less than or equal to
    the one before it; it reads [input_breaks[0]] outside the vector exactly
    when the vector is empty. *)
Theorem CheckIfMonotonicallyIncreasing_iff (b : list Q) :
  (CheckIfMonotonicallyIncreasing b = Ok true <->
   b <> [] /\
   forall i, (S i < length b)%nat -> nth i b 0 < nth (S i) b 0) /\
  (CheckIfMonotonicallyIncreasing b = Ok false <->
   exists i, (S i < length b)%nat /\ nth (S i) b 0 <= nth i b 0) /\
  (CheckIfMonotonicallyIncreasing b = Stuck OutOfBoundsAccess <-> b = []).
Proof.
  split; [|split].
  - split.
    + intro H. split.
      * intro E. subst b. discriminate H.
      * intros i Hi. apply (increasing_nth b H). lia.
    + intros [Hne H]. apply increasing_complete; assumption.
  - split.
    + destruct b as [|b0 rest]; [discriminate|]. cbn. intro H.
      injection H as H. apply increasing_from_false. exact H.
    + intros (i & Hi & Hle).
      destruct b as [|b0 rest]; [simpl in Hi; lia|]. cbn.
      destruct (increasing_from b0 rest) eqn:E; [|reflexivity]. exfalso.
      assert (Hc : CheckIfMonotonicallyIncreasing (b0 :: rest) = Ok true)
        by (cbn; rewrite E; reflexivity).
      pose proof (increasing_nth _ Hc i (S i) ltac:(lia)). lra.
  - destruct b; cbn; split; intro H; try reflexivity; discriminate H.
Qed.




(** *** Generators *)

Lemma nth_map_seq (f : nat -> Q) (n i : nat) :
  (i < n)%nat -> nth i (map f (seq 0 n)) 0 = f i.
Proof.
  intro H.
  rewrite (nth_indep _ 0 (f 0%nat)) by (rewrite length_map, length_seq; exact H).
  rewrite (map_nth f). rewrite seq_nth by exact H. reflexivity.
Qed.

Lemma ulong_succ_S (n : nat) :
  (Z.of_nat n < ulong_max)%Z -> ulong_succ n = S n.
Proof.
  intro H. unfold ulong_succ.
  destruct (Z.of_nat n =? ulong_max)%Z eqn:E; [|reflexivity].
  apply Z.eqb_eq in E. lia.
Qed.

(** X3. [GenerateBreaksFromRangeAndBins(low, upper, bins)] divides by
    [bins == 0] when there is no bin. For [1 <= bins < ULONG_MAX] it returns
    [bins + 1] breaks, the first of them [low], and with [low <= upper] no
    break is smaller than the one before it. For [bins == ULONG_MAX] the
    size [bins + 1] wraps around to zero and the vector returned is
    empty. *)
Theorem GenerateBreaksFromRangeAndBins_shape (low upper : Q) (bins : nat) :
  (bins = 0%nat ->
   GenerateBreaksFromRangeAndBins low upper bins = Stuck DivisionByZero) /\
  ((1 <= bins)%nat -> (Z.of_nat bins < ulong_max)%Z ->
   exists b, GenerateBreaksFromRangeAndBins low upper bins = Ok b /\
     length b = S bins /\
     nth 0 b 0 == low /\
     (low <= upper ->
      forall i, (S i < length b)%nat -> nth i b 0 <= nth (S i) b 0)) /\
  (Z.of_nat bins = ulong_max ->
   GenerateBreaksFromRangeAndBins low upper bins = Ok []).
Proof.
  split; [|split].
  - intros ->. reflexivity.
  - intros Hbins Hmax. unfold GenerateBreaksFromRangeAndBins.
    pose proof (of_nat_pos bins Hbins) as Hpos.
    rewrite Qdiv_checked_Ok by lra. cbn [bind].
    rewrite (ulong_succ_S bins Hmax).
    set (w := (upper - low) / of_nat bins).
    set (b := map (fun i => low + of_nat i * w) (seq 0 (S bins))).
    assert (Hlen : length b = S bins)
      by (subst b; rewrite length_map, length_seq; reflexivity).
    assert (Hnth : forall i, (i < S bins)%nat ->
              nth i b 0 = low + of_nat i * w)
      by (intros i Hi; subst b;
          apply (nth_map_seq (fun i => low + of_nat i * w) _ _ Hi)).
    exists b. split; [reflexivity|]. split; [exact Hlen|]. split.
    + rewrite Hnth by lia. change (of_nat 0) with 0. ring.
    + intros Hle i Hi. rewrite Hlen in Hi. rewrite !Hnth by lia.
      rewrite of_nat_S.
      assert (0 <= w).
      { subst w. apply Qle_shift_div_l; [exact Hpos | lra]. }
      lra.
  - intro Hmax. unfold GenerateBreaksFromRangeAndBins.
    assert (Hbins : (1 <= bins)%nat) by (unfold ulong_max in Hmax; lia).
    pose proof (of_nat_pos bins Hbins) as Hpos.
    rewrite Qdiv_checked_Ok by lra. cbn [bind].
    unfold ulong_succ. rewrite Hmax, Z.eqb_refl. reflexivity.
Qed.

Lemma push_breaks_step (fuel : nat) (ul w br : Q) (acc : list Q) :
  push_breaks (S fuel) ul w br acc =
  if Qlt_bool br ul then push_breaks fuel ul w (br + w) (acc ++ [br])
  else Ok acc.
Proof. reflexivity. Qed.

Lemma push_breaks_zero (ul w br : Q) (acc : list Q) :
  push_breaks 0 ul w br acc = if Qlt_bool br ul then OutOfFuel else Ok acc.
Proof. reflexivity. Qed.

Lemma steps_length (w : Q) : forall k br, length (steps br w k) = k.
Proof. induction k as [|k IH]; intro br; simpl; auto. Qed.

Lemma steps_nth (w : Q) :
  forall k br i, (i < k)%nat -> nth i (steps br w k) 0 == br + of_nat i * w.
Proof.
  induction k as [|k IH]; intros br i Hi; [lia|].
  destruct i as [|i]; simpl.
  - change (of_nat 0) with 0. ring.
  - rewrite IH by lia. rewrite of_nat_S. ring.
Qed.

(** What the loop has pushed when it ends: the breaks from [br] on, [w]
    apart, that are below the limit. *)
Lemma push_breaks_returns (ul w : Q) :
  forall (fuel : nat) (br : Q) (acc b : list Q),
    push_breaks fuel ul w br acc = Ok b ->
    exists k, b = acc ++ steps br w k /\
      (forall i, (i < k)%nat -> br + of_nat i * w < ul) /\
      ul <= br + of_nat k * w /\
      ((1 <= k)%nat -> 0 < w).
Proof.
  assert (Hstop : forall br acc b,
            (if Qlt_bool br ul then @OutOfFuel (list Q) else Ok acc) = Ok b ->
            Qlt_bool br ul = false /\ b = acc).
  { intros br acc b H. destruct (Qlt_bool br ul); [discriminate H|].
    injection H as <-. auto. }
  assert (Hnone : forall br acc,
            Qlt_bool br ul = false ->
            exists k, acc = acc ++ steps br w k /\
              (forall i, (i < k)%nat -> br + of_nat i * w < ul) /\
              ul <= br + of_nat k * w /\
              ((1 <= k)%nat -> 0 < w)).
  { intros br acc E. apply Qlt_bool_false in E. exists 0%nat.
    rewrite app_nil_r. change (of_nat 0) with 0.
    split; [reflexivity|]. split; [intros i Hi; lia|].
    split; [lra | intro Hk; lia]. }
  induction fuel as [|fuel IH]; intros br acc b H.
  - rewrite push_breaks_zero in H. apply Hstop in H. destruct H as [E ->].
    apply Hnone. exact E.
  - rewrite push_breaks_step in H. destruct (Qlt_bool br ul) eqn:E.
    + apply Qlt_bool_iff in E.
      apply IH in H. destruct H as (k & -> & Hin & Hup & Hw).
      exists (S k). split; [rewrite <- app_assoc; reflexivity|].
      split; [|split].
      * intros [|i] Hi.
        -- change (of_nat 0) with 0. lra.
        -- pose proof (Hin i ltac:(lia)) as Hi'. rewrite of_nat_S. lra.
      * rewrite of_nat_S. lra.
      * intros _. destruct k as [|k].
        -- change (of_nat 0) with 0 in Hup. lra.
        -- apply Hw. lia.
    + injection H as <-. apply Hnone. exact E.
Qed.

(** X4. Whenever [GenerateBreaksFromRangeAndWidth(low, upper, width)]
    returns, the vector is empty exactly when [upper + width <= low];
    otherwise the width is positive, the first break is [low], every break
    lies in [[low, upper + width)], and each break is greater than the one
    before it. *)
Theorem GenerateBreaksFromRangeAndWidth_within (fuel : nat)
    (low upper width : Q) (b : list Q) :
  GenerateBreaksFromRangeAndWidth fuel low upper width = Ok b ->
  (b = [] <-> upper + width <= low) /\
  (b <> [] -> 0 < width /\ nth 0 b 0 = low) /\
  (forall i, (i < length b)%nat ->
     low <= nth i b 0 /\ nth i b 0 < upper + width) /\
  (forall i, (S i < length b)%nat -> nth i b 0 < nth (S i) b 0).
Proof.
  unfold GenerateBreaksFromRangeAndWidth. cbv zeta. intro H.
  apply push_breaks_returns in H. destruct H as (k & -> & Hin & Hup & Hw).
  cbn [app]. rewrite steps_length.
  split; [|split; [|split]].
  - split.
    + intro E. assert (k = 0%nat) as ->
        by (rewrite <- (steps_length width k low), E; reflexivity).
      change (of_nat 0) with 0 in Hup. lra.
    + intro Hle. destruct k as [|k]; [reflexivity|].
      pose proof (Hin 0%nat ltac:(lia)) as H0.
      change (of_nat 0) with 0 in H0. lra.
  - intro Hne. destruct k as [|k]; [contradiction Hne; reflexivity|].
    split; [apply Hw; lia | reflexivity].
  - intros i Hi. rewrite (steps_nth width k low i Hi).
    pose proof (Hw ltac:(lia)) as Hpos.
    split; [|apply Hin; exact Hi].
    destruct i as [|i]; [change (of_nat 0) with 0; lra|].
    pose proof (of_nat_pos (S i) ltac:(lia)) as Hi'.
    pose proof (Qmult_lt_0_compat _ _ Hi' Hpos). lra.
  - intros i Hi.
    rewrite (steps_nth width k low i ltac:(lia)).
    rewrite (steps_nth width k low (S i) Hi).
    pose proof (Hw ltac:(lia)) as Hpos. rewrite of_nat_S. lra.
Qed.

Lemma push_breaks_diverges (ul w : Q) :
  w <= 0 ->
  forall (fuel : nat) (br : Q) (acc : list Q),
    br < ul -> push_breaks fuel ul w br acc = OutOfFuel.
Proof.
  intro Hw. induction fuel as [|fuel IH]; intros br acc Hbr.
  - rewrite push_breaks_zero, (proj2 (Qlt_bool_iff _ _) Hbr). reflexivity.
  - rewrite push_breaks_step, (proj2 (Qlt_bool_iff _ _) Hbr).
    apply IH. lra.
Qed.

(** X5. [GenerateBreaksFromRangeAndWidth] returns no break at all when
    [upper + width <= low]; with [width <= 0] and [low < upper + width] its
    loop never ends, whatever the fuel. *)
Theorem GenerateBreaksFromRangeAndWidth_bad_width (fuel : nat)
    (low upper width : Q) :
  (upper + width <= low ->
   GenerateBreaksFromRangeAndWidth fuel low upper width = Ok []) /\
  (width <= 0 -> low < upper + width ->
   GenerateBreaksFromRangeAndWidth fuel low upper width = OutOfFuel).
Proof.
  unfold GenerateBreaksFromRangeAndWidth. cbv zeta. split.
  - intro H. apply Qlt_bool_false in H.
    destruct fuel; [rewrite push_breaks_zero | rewrite push_breaks_step];
      rewrite H; reflexivity.
  - intros Hw Hlow. apply push_breaks_diverges; assumption.
Qed.

(** ** Bins and counts *)

Lemma IndexFromValue_cases {C : Type} (h : Histo C) (v : Q) :
  length (breaks h) = S (bins h) -> (1 <= bins h)%nat ->
  IndexFromValue h v = Throw ValueOutOfBonds \/
  exists i, IndexFromValue h v = Ok i /\ (i < bins h)%nat /\
    nth i (breaks h) 0 <= v /\
    (v < nth (S i) (breaks h) 0 \/ i = (bins h - 1)%nat).
Proof.
  intros Hlen Hbins. unfold IndexFromValue.
  rewrite (vec_at_nth (breaks h) 0 0) by lia.
  rewrite (vec_at_nth (breaks h) (bins h) 0) by lia. cbn [bind].
  destruct (Qge_bool v (nth 0 (breaks h) 0)) eqn:F; [|left; reflexivity].
  destruct (Qlt_bool v (nth (bins h) (breaks h) 0)
            || isequalthan 1 v (nth (bins h) (breaks h) 0));
    [|left; reflexivity].
  right. apply Qge_bool_iff in F.
  destruct (bisect_invariant (breaks h) v (bins h) (bins h - 0) 0 (bins h))
    as (i & Hi & Hr & Hb & Hu);
    [lia | lia | lia | exact F | right; reflexivity | ].
  exists i. repeat split; try assumption; try lia.
  destruct Hu as [Hu|Hu]; [left; exact Hu | right; lia].
Qed.

(** X6. On monotonically increasing breaks, with
    [breaks.size() == bins + 1] and a bin, the index that [IndexFromValue]
    returns for a value is the only bin [j] with
    [breaks[j] <= value < breaks[j+1]], and a greater value never gets a
    smaller index. *)
Theorem IndexFromValue_unique_monotone {C : Type} (h : Histo C)
    (v v' : Q) (i i' : nat) :
  CheckIfMonotonicallyIncreasing (breaks h) = Ok true ->
  length (breaks h) = S (bins h) -> (1 <= bins h)%nat ->
  IndexFromValue h v = Ok i ->
  (forall j, (j < bins h)%nat ->
     nth j (breaks h) 0 <= v -> v < nth (S j) (breaks h) 0 -> j = i) /\
  (IndexFromValue h v' = Ok i' -> v <= v' -> (i <= i')%nat).
Proof.
  intros Hinc Hlen Hbins Hi.
  pose proof (increasing_nth _ Hinc) as Hmono.
  destruct (IndexFromValue_cases h v Hlen Hbins) as [E|(k & E & Hk & Hlo & Hup)];
    [congruence|].
  assert (k = i) by congruence. subst k. split.
  - intros j Hj Hjlo Hjup.
    destruct (Nat.lt_trichotomy i j) as [Hlt|[Heq|Hgt]]; [|auto|].
    + exfalso. destruct Hup as [Hup|Hup]; [|lia].
      destruct (Nat.eq_dec (S i) j) as [<-|Hne]; [lra|].
      pose proof (Hmono (S i) j ltac:(lia)). lra.
    + exfalso.
      destruct (Nat.eq_dec (S j) i) as [<-|Hne]; [lra|].
      pose proof (Hmono (S j) i ltac:(lia)). lra.
  - intros Hi' Hle.
    destruct (IndexFromValue_cases h v' Hlen Hbins)
      as [E'|(k & E' & Hk' & Hlo' & Hup')]; [congruence|].
    assert (k = i') by congruence. subst k.
    destruct (Nat.le_gt_cases i i') as [|Hgt]; [assumption|]. exfalso.
    destruct Hup' as [Hup'|Hup']; [|lia].
    destruct (Nat.eq_dec (S i') i) as [<-|Hne]; [lra|].
    pose proof (Hmono (S i') i ltac:(lia)). lra.
Qed.

(** X7. On a histogram of consistent lengths with a bin, [FillCounts]
    accesses no vector out of its bounds: it returns, or throws the error of
    [IndexFromValue]; either way the breaks, the bins, the range, the name
    and the number of counts are as before. *)
Theorem FillCounts_safe (data : list Q) :
  forall (h : Histo Z),
    consistent h -> (1 <= bins h)%nat ->
    exists h',
      (FillCounts data h = (Ok tt, h') \/
       FillCounts data h = (Throw ValueOutOfBonds, h')) /\
      breaks h' = breaks h /\ bins h' = bins h /\ range h' = range h /\
      name h' = name h /\ length (counts h') = length (counts h).
Proof.
  induction data as [|v data IH]; intros h [Hb Hc] Hbins.
  - exists h. simpl. auto 7.
  - rewrite FillCounts_cons.
    destruct (IndexFromValue_cases h v Hb Hbins) as [E|(i & E & Hi & _)];
      rewrite E.
    + exists h. auto 7.
    + unfold increment_count.
      rewrite (nth_error_nth' (counts h) 0%Z) by lia.
      set (h1 := set_counts h _).
      destruct (IH h1) as (h' & Hres & H1 & H2 & H3 & H4 & H5).
      * split; [exact Hb|]. subst h1. simpl. rewrite vec_set_length. exact Hc.
      * exact Hbins.
      * exists h'. split; [exact Hres|]. subst h1. simpl in *.
        rewrite vec_set_length in H5. auto.
Qed.

(** X8. [FillCounts] of the concatenation of two vectors of data is
    [FillCounts] of the first followed, on the histogram it leaves, by
    [FillCounts] of the second; where the first stops, the whole stops, in
    the same state. *)
Theorem FillCounts_app (a b : list Q) :
  forall (h : Histo Z),
    FillCounts (a ++ b) h =
    match FillCounts a h with
    | (Ok _, h') => FillCounts b h'
    | stop => stop
    end.
Proof.
  induction a as [|v a IH]; intro h.
  - reflexivity.
  - cbn [app]. rewrite !FillCounts_cons.
    destruct (IndexFromValue h v) as [i| | |]; try reflexivity.
    destruct (increment_count i h) as [[[]| | |] h1]; try reflexivity.
    apply IH.
Qed.

Lemma nth_vec_set (l : list Z) :
  forall (i j : nat) (x : Z),
    (i < length l)%nat ->
    nth j (vec_set i x l) 0%Z = if (j =? i)%nat then x else nth j l 0%Z.
Proof.
  induction l as [|y l IH]; intros [|i] [|j] x H; simpl in *;
    try lia; try reflexivity.
  apply IH. lia.
Qed.

Lemma hits_cons {C : Type} (h : Histo C) (v : Q) (data : list Q) (i j : nat) :
  IndexFromValue h v = Ok j ->
  hits h (v :: data) i = ((if (j =? i)%nat then 1 else 0) + hits h data i)%nat.
Proof.
  intro H. unfold hits. cbn [filter]. rewrite H.
  destruct (j =? i)%nat; reflexivity.
Qed.

Lemma hits_ext {C D : Type} (h : Histo C) (h' : Histo D) (data : list Q)
    (i : nat) :
  breaks h' = breaks h -> bins h' = bins h -> hits h' data i = hits h data i.
Proof.
  intros Hb Hn. unfold hits. f_equal. apply filter_ext. intro v.
  rewrite (IndexFromValue_ext h h' v Hb Hn). reflexivity.
Qed.

Lemma incr_range (c : Z) : (0 <= incr c <= count_max)%Z.
Proof.
  unfold incr. pose proof count_max_pos as Hcm.
  assert (Hpos : (0 < count_max + 1)%Z) by lia.
  pose proof (Z.mod_pos_bound (c + 1) (count_max + 1) Hpos). lia.
Qed.

Lemma FillCounts_counts (data : list Q) :
  forall (h h' : Histo Z),
    Forall (fun c => (0 <= c <= count_max)%Z) (counts h) ->
    FillCounts data h = (Ok tt, h') ->
    forall i, (i < length (counts h))%nat ->
      nth i (counts h') 0%Z =
      ((nth i (counts h) 0 + Z.of_nat (hits h data i)) mod (count_max + 1))%Z.
Proof.
  pose proof count_max_pos as Hcm.
  induction data as [|v data IH]; intros h h' Hr H i Hi.
  - simpl in H. injection H as <-. unfold hits. simpl.
    rewrite Z.add_0_r. symmetry. apply Z.mod_small.
    pose proof (proj1 (Forall_forall _ _) Hr (nth i (counts h) 0%Z)
                  (nth_In _ _ Hi)) as Hin.
    cbv beta in Hin. lia.
  - rewrite FillCounts_cons in H.
    destruct (IndexFromValue h v) as [j| | |] eqn:E; try discriminate.
    unfold increment_count in H.
    destruct (nth_error (counts h) j) as [c|] eqn:Ej; [|discriminate].
    assert (Hj : (j < length (counts h))%nat)
      by (apply nth_error_Some; congruence).
    set (h1 := set_counts h (vec_set j (incr c) (counts h))) in H.
    rewrite (IH h1 h') ; [| | exact H |].
    + rewrite (hits_ext h h1) by reflexivity.
      rewrite (hits_cons h v data i j E).
      subst h1. cbn [counts set_counts]. rewrite nth_vec_set by exact Hj.
      rewrite Nat.eqb_sym.
      destruct (j =? i)%nat eqn:Eji.
      * apply Nat.eqb_eq in Eji. subst j.
        rewrite (nth_error_nth _ _ 0%Z Ej). unfold incr.
        rewrite Zplus_mod_idemp_l. f_equal. lia.
      * f_equal.
    + subst h1. cbn [counts set_counts].
      apply Forall_vec_set; [exact Hr | apply incr_range].
    + subst h1. cbn [counts set_counts]. rewrite vec_set_length. exact Hi.
Qed.

(** X9. When the counts are not negative and their sum with the number
    of values of the data is at most the maximum of [PRECI_INTEGER], a
    [FillCounts] that returns has raised the sum of the counts by
    [data.size()]: every value is counted once and no count wraps around. *)
Theorem FillCounts_total (data : list Q) (h h' : Histo Z) :
  Forall (fun c => (0 <= c)%Z) (counts h) ->
  (Zsum (counts h) + Z.of_nat (length data) <= count_max)%Z ->
  FillCounts data h = (Ok tt, h') ->
  Zsum (counts h') = (Zsum (counts h) + Z.of_nat (length data))%Z /\
  Forall (fun c => (0 <= c)%Z) (counts h').
Proof. apply FillCounts_sum. Qed.

(** X10. After a [FillCounts] that returns, count [i] is its value before
    plus the number of values of the data that [IndexFromValue] sends to bin
    [i], modulo the maximum of [PRECI_INTEGER] plus one: the [++] of
    [FillCounts] is not checked and wraps around. *)
Theorem FillCounts_hits (data : list Q) (h h' : Histo Z) (i : nat) :
  Forall (fun c => (0 <= c <= count_max)%Z) (counts h) ->
  FillCounts data h = (Ok tt, h') ->
  (i < length (counts h))%nat ->
  nth i (counts h') 0%Z =
  ((nth i (counts h) 0 + Z.of_nat (hits h data i)) mod (count_max + 1))%Z.
Proof. intros Hr H Hi. exact (FillCounts_counts data h h' Hr H i Hi). Qed.

(** *** Single counts *)

Lemma vec_set_same {A : Type} (l : list A) :
  forall i x, nth_error l i = Some x -> vec_set i x l = l.
Proof.
  induction l as [|y l IH]; intros [|i] x H; simpl in *; try discriminate.
  - injection H as ->. reflexivity.
  - rewrite (IH i x H). reflexivity.
Qed.

Lemma vec_set_twice {A : Type} (l : list A) :
  forall i x y, vec_set i y (vec_set i x l) = vec_set i y l.
Proof.
  induction l as [|z l IH]; intros [|i] x y; simpl; try reflexivity.
  rewrite IH. reflexivity.
Qed.

Lemma nth_error_vec_set {A : Type} (l : list A) :
  forall i j x,
    (i < length l)%nat ->
    nth_error (vec_set i x l) j =
    if (j =? i)%nat then Some x else nth_error l j.
Proof.
  induction l as [|y l IH]; intros [|i] [|j] x H; simpl in *;
    try lia; try reflexivity.
  apply IH. lia.
Qed.

(** X11. [Increase] and [Decrease] undo each other. At an index of
    [counts] whose count [c] is below the maximum, [Increase] returns and
    leaves [c + 1], and [Decrease] then gives back the histogram as it was;
    at a count [c > 0], [Decrease] returns and leaves [c - 1], and
    [Increase] then gives back the histogram as it was. *)
Theorem Increase_Decrease_round_trip (h : Histo Z) (index : nat) (c : Z) :
  nth_error (counts h) index = Some c ->
  ((0 <= c < count_max)%Z ->
   exists h1, Increase index h = (Ok tt, h1) /\
     nth_error (counts h1) index = Some (c + 1)%Z /\
     Decrease index h1 = (Ok tt, h)) /\
  ((0 < c <= count_max)%Z ->
   exists h1, Decrease index h = (Ok tt, h1) /\
     nth_error (counts h1) index = Some (c - 1)%Z /\
     Increase index h1 = (Ok tt, h)).
Proof.
  intro E.
  assert (Hi : (index < length (counts h))%nat)
    by (apply nth_error_Some; congruence).
  split; intro Hc.
  - assert (Hincr : incr c = (c + 1)%Z) by (apply Z.mod_small; lia).
    assert (Hdecr : decr (c + 1) = c)
      by (unfold decr; rewrite Z.add_simpl_r; apply Z.mod_small; lia).
    eexists. unfold Increase at 1, increment_count. rewrite E.
    destruct (c =? count_max)%Z eqn:Ec; [apply Z.eqb_eq in Ec; lia|].
    split; [reflexivity|]. rewrite Hincr. cbn [counts set_counts].
    rewrite nth_error_vec_set, Nat.eqb_refl by exact Hi.
    split; [reflexivity|].
    unfold Decrease. cbn [counts set_counts].
    rewrite nth_error_vec_set, Nat.eqb_refl by exact Hi.
    destruct (c + 1 <=? 0)%Z eqn:Ez; [apply Z.leb_le in Ez; lia|].
    rewrite Hdecr, vec_set_twice, (vec_set_same _ _ _ E).
    destruct h; reflexivity.
  - assert (Hdecr : decr c = (c - 1)%Z) by (apply Z.mod_small; lia).
    assert (Hincr : incr (c - 1) = c)
      by (unfold incr; rewrite Z.sub_simpl_r; apply Z.mod_small; lia).
    eexists. unfold Decrease at 1. rewrite E.
    destruct (c <=? 0)%Z eqn:Ez; [apply Z.leb_le in Ez; lia|].
    split; [reflexivity|]. rewrite Hdecr. cbn [counts set_counts].
    rewrite nth_error_vec_set, Nat.eqb_refl by exact Hi.
    split; [reflexivity|].
    unfold Increase, increment_count. cbn [counts set_counts].
    rewrite nth_error_vec_set, Nat.eqb_refl by exact Hi.
    destruct (c - 1 =? count_max)%Z eqn:Ec; [apply Z.eqb_eq in Ec; lia|].
    rewrite Hincr, vec_set_twice, (vec_set_same _ _ _ E).
    destruct h; reflexivity.
Qed.

(** X12. At an index of [counts], [Increase] throws exactly when the
    count is [numeric_limits<PRECI_INTEGER>::max()] and [Decrease] exactly
    when the count is zero; when either throws, the error is its own and the
    histogram is as before. *)
Theorem Increase_Decrease_guards (h : Histo Z) (index : nat) (c : Z) :
  nth_error (counts h) index = Some c -> (0 <= c <= count_max)%Z ->
  (Increase index h = (Throw IncreaseExceeded, h) <-> c = count_max) /\
  (Decrease index h = (Throw DecreaseNegative, h) <-> c = 0%Z) /\
  (forall e h', Increase index h = (Throw e, h') ->
                e = IncreaseExceeded /\ h' = h) /\
  (forall e h', Decrease index h = (Throw e, h') ->
                e = DecreaseNegative /\ h' = h).
Proof.
  intros E Hc. unfold Increase, Decrease, increment_count. rewrite E.
  split; [|split; [|split]].
  - destruct (Z.eqb_spec c count_max) as [Ec|Ec]; split; intro H;
      try reflexivity; try assumption; try discriminate H; contradiction.
  - destruct (Z.leb_spec c 0) as [Ez|Ez]; split; intro H;
      try reflexivity; try discriminate H; lia.
  - intros e h' H. destruct (Z.eqb_spec c count_max) as [Ec|Ec];
      [injection H as <- <-; auto | discriminate H].
  - intros e h' H. destruct (Z.leb_spec c 0) as [Ez|Ez];
      [injection H as <- <-; auto | discriminate H].
Qed.

(** X13. For [index < bins] on a histogram with one count per bin,
    [SetCount(index, v)] returns; afterwards [counts[index] == v], every
    other count, the number of counts, the breaks, the bins and the range
    are as before, and a second [SetCount] at the same index makes the
    first one forgotten. *)
Theorem SetCount_lookup (h : Histo Z) (index : nat) (v : Z) :
  length (counts h) = bins h -> (index < bins h)%nat ->
  exists h', SetCount index v h = (Ok tt, h') /\
    nth_error (counts h') index = Some v /\
    (forall j, j <> index -> nth_error (counts h') j = nth_error (counts h) j) /\
    length (counts h') = length (counts h) /\
    breaks h' = breaks h /\ bins h' = bins h /\ range h' = range h /\
    (forall v', SetCount index v' h' = SetCount index v' h).
Proof.
  intros Hlen Hi. unfold SetCount.
  destruct (bins h <? index)%nat eqn:E1; [apply Nat.ltb_lt in E1; lia|].
  destruct (index <? length (counts h))%nat eqn:E2;
    [|apply Nat.ltb_ge in E2; lia].
  eexists. split; [reflexivity|]. cbn [counts set_counts breaks bins range].
  rewrite vec_set_length.
  repeat split.
  - rewrite nth_error_vec_set, Nat.eqb_refl by lia. reflexivity.
  - intros j Hj. rewrite nth_error_vec_set by lia.
    destruct (j =? index)%nat eqn:E; [apply Nat.eqb_eq in E; lia | reflexivity].
  - intro v'. rewrite E1, E2, vec_set_twice. reflexivity.
Qed.

(** ** Balancing *)

(** X14. [BalanceBreaksWithRange] checks the breaks before it does
    anything else: whenever it returns, the breaks it was given passed
    [CheckBreaksAreEquidistant]; it throws exactly when they fail the check,
    and that error is the only one it throws; it reads outside the vector
    exactly when there are fewer than two breaks. *)
Theorem BalanceBreaksWithRange_checks_first (fuel : nat) (b : list Q)
    (r : Q * Q) :
  (forall b' changed,
     BalanceBreaksWithRange fuel b r = Ok (b', changed) ->
     CheckBreaksAreEquidistant b = Ok true) /\
  (forall e,
     BalanceBreaksWithRange fuel b r = Throw e <->
     e = NonEquidistantBreaks /\ CheckBreaksAreEquidistant b = Ok false) /\
  (BalanceBreaksWithRange fuel b r = Stuck OutOfBoundsAccess <->
   (length b < 2)%nat).
Proof.
  split; [|split].
  - intros b' changed H. exact (Balance_Ok_checked _ _ _ _ _ H).
  - intro e. apply Balance_throw_iff.
  - apply Balance_out_of_bounds_iff.
Qed.

(** X15. When [BalanceBreaksWithRange] returns, it returns [false]
    exactly when the breaks it was given were within [epsilon] of the range
    at both ends already; and when it returns [false] the breaks are as
    before. *)
Theorem BalanceBreaksWithRange_changed (fuel : nat) (b b' : list Q)
    (r : Q * Q) (changed : bool) :
  BalanceBreaksWithRange fuel b r = Ok (b', changed) ->
  (changed = false <->
   Qabs (nth 0 b 0 - fst r) <= epsilon /\
   Qabs (nth (length b - 1) b 0 - snd r) <= epsilon) /\
  (changed = false -> b' = b).
Proof.
  intro Hrun.
  pose proof (Balance_Ok_checked _ _ _ _ _ Hrun) as Hc.
  pose proof (Balance_walk fuel b r 0 Hc) as Hpost.
  rewrite Hrun in Hpost.
  destruct Hpost as (_ & Hfront & Hback & Hsame & _).
  split; [split|exact Hsame].
  - intro E. rewrite (Hsame E) in Hfront, Hback.
    split; apply isequalthan_0_iff; assumption.
  - intros [H1 H2]. apply isequalthan_0_iff in H1, H2.
    rewrite (Balance_balanced fuel b r Hc H1 H2) in Hrun. congruence.
Qed.

Lemma Balance_two_breaks_stuck (fuel : nat) (b0 b1 : Q) (r : Q * Q) :
  b0 == fst r -> fst r < snd r ->
  epsilon < b1 - snd r ->
  snd r - fst r < (8 # 10) * (b1 - snd r) ->
  BalanceBreaksWithRange fuel [b0; b1] r = Stuck DivisionByZero.
Proof.
  destruct r as [low upper]. cbn [fst snd]. intros Hb0 Hr Heps Hfar.
  pose proof epsilon_pos as Hpos.
  assert (Hc : CheckBreaksAreEquidistant [b0; b1] = Ok true).
  { unfold CheckBreaksAreEquidistant. cbn.
    rewrite isequalthan_same by reflexivity. reflexivity. }
  unfold BalanceBreaksWithRange. rewrite Hc.
  cbn [bind negb size_minus_one length vec_at nth_error fst snd].
  assert (LowZ : isequalthan 1 (b0 - low) 0 = true)
    by (apply isequalthan_zero; lra).
  assert (UpZ : isequalthan 1 (b1 - upper) 0 = false).
  { destruct (isequalthan 1 (b1 - upper) 0) eqn:E; [|reflexivity].
    apply isequalthan_0_iff in E. apply Qabs_Qle_condition in E. lra. }
  rewrite LowZ, UpZ. cbn [andb negb bind vec_at nth_error].
  unfold CheckAndUpdateDiff at 1. cbv zeta. rewrite UpZ.
  cbn [Nat.sub bind vec_at nth_error].
  assert (C1 : Qlt_bool (b0 - upper) 0 = true) by (apply Qlt_bool_iff; lra).
  assert (C2 : Qlt_bool 0 (b1 - upper) = true) by (apply Qlt_bool_iff; lra).
  assert (C3 : Qlt_bool (Qabs (b0 - upper)) ((8 # 10) * Qabs (b1 - upper))
               = true).
  { apply Qlt_bool_iff.
    rewrite (Qabs_neg (b0 - upper)) by lra.
    rewrite (Qabs_pos (b1 - upper)) by lra. lra. }
  rewrite C1, C2, C3. reflexivity.
Qed.

(** X16. Two breaks [{b0, b1}] with [b0] at [range.first],
    [range.first < range.second], [b1] beyond [range.second] by more than
    [epsilon] and [range.second - range.first < 0.8 * (b1 - range.second)]
    pass the equidistance check; [BalanceBreaksWithRange] then pops [b1],
    which leaves [nbins == 0], and divides [diff_upper_before] by
    [nbins]. *)
Theorem BalanceBreaksWithRange_drops_only_bin (fuel : nat) (b0 b1 : Q)
    (r : Q * Q) :
  b0 == fst r -> fst r < snd r ->
  epsilon < b1 - snd r ->
  snd r - fst r < (8 # 10) * (b1 - snd r) ->
  CheckBreaksAreEquidistant [b0; b1] = Ok true /\
  BalanceBreaksWithRange fuel [b0; b1] r = Stuck DivisionByZero.
Proof.
  intros H0 Hr He Hf. split; [|apply Balance_two_breaks_stuck; assumption].
  unfold CheckBreaksAreEquidistant. cbn.
  rewrite isequalthan_same by reflexivity. reflexivity.
Qed.

(** ** Variance, least and greatest value *)

Lemma Qsum_list_app (a b : list Q) :
  Qsum_list (a ++ b) == Qsum_list a + Qsum_list b.
Proof.
  induction a as [|x a IH]; simpl.
  - ring.
  - unfold Qsum_list in *. simpl. rewrite IH. ring.
Qed.

Lemma Qsum_list_sq_dev (m : Q) (xs : list Q) :
  Qsum_list (map (fun x => (x - m) * (x - m)) xs) ==
  Qsum_list (map (fun x => x * x) xs) - 2 * m * Qsum_list xs
  + of_nat (length xs) * m * m.
Proof.
  induction xs as [|x xs IH].
  - simpl. change (of_nat 0) with 0. ring.
  - cbn [map length]. unfold Qsum_list in *. cbn [fold_right].
    rewrite IH, of_nat_S. ring.
Qed.

Lemma welford_invariant :
  forall (xs pre : list Q) (M S_ : Q),
    of_nat (length pre) * M == Qsum_list pre ->
    S_ == Qsum_list (map (fun x => x * x) pre) - of_nat (length pre) * M * M ->
    exists M' S',
      welford xs (length pre) M S_ = (length (pre ++ xs), S') /\
      of_nat (length (pre ++ xs)) * M' == Qsum_list (pre ++ xs) /\
      S' == Qsum_list (map (fun x => x * x) (pre ++ xs))
            - of_nat (length (pre ++ xs)) * M' * M'.
Proof.
  induction xs as [|x xs IH]; intros pre M S_ HM HS.
  - exists M, S_. rewrite app_nil_r. simpl. auto.
  - cbn [welford]. cbv zeta.
    replace (S (length pre)) with (length (pre ++ [x]))
      by (rewrite length_app; simpl; lia).
    destruct (IH (pre ++ [x])
                (M + (x - M) / of_nat (length (pre ++ [x])))
                (S_ + (x - M) * (x - (M + (x - M) / of_nat (length (pre ++ [x]))))))
      as (M' & S' & Hw & HM' & HS').
    + rewrite length_app. cbn [length]. rewrite Nat.add_1_r, of_nat_S.
      rewrite Qsum_list_app. unfold Qsum_list at 2. cbn [fold_right].
      rewrite <- HM.
      pose proof (of_nat_pos (S (length pre)) ltac:(lia)) as Hpos.
      rewrite of_nat_S in Hpos. field. lra.
    + rewrite map_app, Qsum_list_app, length_app. cbn [length map].
      unfold Qsum_list at 2. cbn [fold_right].
      rewrite Nat.add_1_r, of_nat_S, HS.
      pose proof (of_nat_pos (S (length pre)) ltac:(lia)) as Hpos.
      rewrite of_nat_S in Hpos. field. lra.
    + exists M', S'. rewrite <- app_assoc in Hw, HM', HS'. cbn [app] in *.
      auto.
Qed.

(** X18. [variance_welford] returns the sample variance, the sum of
    [(x - mean)^2] divided by [n - 1], of [n >= 2] values; on one value it
    divides [S] by [N - 1 == 0]; on no value [N - 1] wraps around to the
    maximum and the result is zero. *)
Theorem variance_welford_sample_variance (xs : list Q) :
  ((2 <= length xs)%nat ->
   exists v, variance_welford xs = Ok v /\ v == sample_variance xs) /\
  (length xs = 1%nat -> variance_welford xs = Stuck DivisionByZero) /\
  (xs = [] -> exists v, variance_welford xs = Ok v /\ v == 0).
Proof.
  destruct (welford_invariant xs [] 0 0) as (M & S' & Hw & HM & HS).
  { simpl. change (of_nat 0) with 0. ring. }
  { simpl. change (of_nat 0) with 0. ring. }
  cbn [app length] in *. unfold variance_welford. rewrite Hw.
  split; [|split].
  - intro Hlen. destruct (length xs) as [|n] eqn:En; [lia|].
    pose proof (of_nat_pos n ltac:(lia)) as Hn.
    pose proof (of_nat_pos (S n) ltac:(lia)) as HSn.
    rewrite Qdiv_checked_Ok by lra.
    eexists. split; [reflexivity|].
    unfold sample_variance, sample_mean. rewrite En.
    replace (S n - 1)%nat with n by lia.
    apply Qmult_comp; [|reflexivity].
    rewrite Qsum_list_sq_dev, HS, En.
    assert (EM : M == Qsum_list xs / of_nat (S n)).
    { rewrite <- HM. field. lra. }
    rewrite EM. field. lra.
  - intro Hlen. rewrite Hlen. reflexivity.
  - intro E. subst xs. simpl in Hw. injection Hw as <-.
    eexists. split; [reflexivity|]. reflexivity.
Qed.

(** *** [minmax_element] *)

Lemma fold_left_Qmin (rest : list Q) :
  forall x,
    In (fold_left Qmin rest x) (x :: rest) /\
    forall y, In y (x :: rest) -> fold_left Qmin rest x <= y.
Proof.
  induction rest as [|z rest IH]; intro x; cbn [fold_left].
  - split; [left; reflexivity|]. intros y [<-|[]]. apply Qle_refl.
  - destruct (IH (Qmin x z)) as [Hin Hle]. split.
    + destruct Hin as [Hin|Hin]; [|right; right; exact Hin].
      rewrite <- Hin. unfold Qmin, GenericMinMax.gmin.
      destruct (x ?= z); [left | left | right; left]; reflexivity.
    + intros y [<-|[<-|Hy]].
      * apply Qle_trans with (Qmin x z);
          [apply Hle; left; reflexivity | apply Q.le_min_l].
      * apply Qle_trans with (Qmin x z);
          [apply Hle; left; reflexivity | apply Q.le_min_r].
      * apply Hle. right. exact Hy.
Qed.

Lemma fold_left_Qmax (rest : list Q) :
  forall x,
    In (fold_left Qmax rest x) (x :: rest) /\
    forall y, In y (x :: rest) -> y <= fold_left Qmax rest x.
Proof.
  induction rest as [|z rest IH]; intro x; cbn [fold_left].
  - split; [left; reflexivity|]. intros y [<-|[]]. apply Qle_refl.
  - destruct (IH (Qmax x z)) as [Hin Hle]. split.
    + destruct Hin as [Hin|Hin]; [|right; right; exact Hin].
      rewrite <- Hin. unfold Qmax, GenericMinMax.gmax.
      destruct (x ?= z); [left | right; left | left]; reflexivity.
    + intros y [<-|[<-|Hy]].
      * apply Qle_trans with (Qmax x z);
          [apply Q.le_max_l | apply Hle; left; reflexivity].
      * apply Qle_trans with (Qmax x z);
          [apply Q.le_max_r | apply Hle; left; reflexivity].
      * apply Hle. right. exact Hy.
Qed.

Lemma minmax_element_bounds (data : list Q) (lo hi : Q) :
  minmax_element data = Ok (lo, hi) ->
  In lo data /\ In hi data /\ forall x, In x data -> lo <= x <= hi.
Proof.
  unfold minmax_element. destruct data as [|x rest]; [discriminate|].
  intro H. injection H as <- <-.
  destruct (fold_left_Qmin rest x) as [H1 H2].
  destruct (fold_left_Qmax rest x) as [H3 H4].
  repeat split; auto.
Qed.

(** ** Constructors and views *)

Lemma IndexFromValue_Ok_range {C : Type} (h : Histo C) (v : Q) (i : nat) :
  IndexFromValue h v = Ok i ->
  nth 0 (breaks h) 0 <= v <= nth (bins h) (breaks h) 0 + epsilon.
Proof.
  unfold IndexFromValue, vec_at.
  destruct (nth_error (breaks h) 0) as [b0|] eqn:E0; cbn [bind];
    [|discriminate].
  destruct (Qge_bool v b0) eqn:F; [|discriminate].
  destruct (nth_error (breaks h) (bins h)) as [bn|] eqn:En; cbn [bind];
    [|discriminate].
  destruct (Qlt_bool v bn || isequalthan 1 v bn) eqn:G; [|discriminate].
  intros _. rewrite (nth_error_nth _ _ 0 E0), (nth_error_nth _ _ 0 En).
  apply Qge_bool_iff in F. pose proof epsilon_pos.
  apply orb_true_iff in G. destruct G as [G|G].
  - apply Qlt_bool_iff in G. split; lra.
  - apply isequalthan_1_iff in G. split; lra.
Qed.

Lemma FillCounts_Ok_accepts (data : list Q) :
  forall (h h' : Histo Z),
    FillCounts data h = (Ok tt, h') ->
    forall v, In v data -> exists i, IndexFromValue h v = Ok i.
Proof.
  induction data as [|x data IH]; intros h h' H v Hv; [destruct Hv|].
  rewrite FillCounts_cons in H.
  destruct (IndexFromValue h x) as [i| | |] eqn:E; try discriminate.
  destruct (increment_count i h) as [r h1] eqn:Inc.
  pose proof (increment_count_inv _ _ _ _ Inc)
    as (Hb & Hn & _ & _ & [->|[-> ->]]); [|discriminate].
  destruct Hv as [<-|Hv]; [exists i; exact E|].
  destruct (IH h1 h' H v Hv) as [j Hj]. exists j.
  rewrite <- Hj. symmetry. apply IndexFromValue_ext; assumption.
Qed.

Lemma FillCounts_throw_ValueOutOfBonds (data : list Q) :
  forall (h h' : Histo Z) (e : histo_error),
    FillCounts data h = (Throw e, h') -> e = ValueOutOfBonds.
Proof.
  induction data as [|v data IH]; intros h h' e H.
  - discriminate H.
  - rewrite FillCounts_cons in H.
    destruct (IndexFromValue h v) as [i|e'| |] eqn:E; try discriminate.
    + unfold increment_count in H.
      destruct (nth_error (counts h) i); [|discriminate].
      apply (IH _ _ _ H).
    + injection H as -> _. apply (IndexFromValue_throws _ _ _ E).
Qed.

Lemma constructed_Ok (r : outcome unit * Histo Z) (h : Histo Z) :
  constructed r = Ok h -> r = (Ok tt, h).
Proof.
  destruct r as [[[]| | |] h0]; simpl; intro H; try discriminate.
  injection H as ->. reflexivity.
Qed.

Lemma Zsum_repeat_0 (n : nat) : Zsum (repeat 0%Z n) = 0%Z.
Proof. induction n as [|n IH]; simpl; [reflexivity | exact IH]. Qed.

Lemma FillCounts_frame (data : list Q) :
  forall (h h' : Histo Z) (r : outcome unit),
    FillCounts data h = (r, h') ->
    range h' = range h /\ name h' = name h.
Proof.
  induction data as [|v data IH]; intros h h' r H.
  - simpl in H. injection H as <- <-. auto.
  - rewrite FillCounts_cons in H.
    destruct (IndexFromValue h v) as [i| | |];
      try (injection H as <- <-; auto).
    unfold increment_count in H.
    destruct (nth_error (counts h) i);
      [apply IH in H; exact H | injection H as <- <-; auto].
Qed.

(** What the tail shared by the three constructors leaves when it returns. *)
Lemma constructed_filled (data : list Q) (this h : Histo Z) :
  constructed (FillCounts data (ResetCounts this)) = Ok h ->
  (breaks h = breaks this /\ bins h = bins this /\ range h = range this /\
   name h = name this /\ length (counts h) = bins this) /\
  (forall v, In v data ->
     nth 0 (breaks this) 0 <= v <= nth (bins this) (breaks this) 0 + epsilon) /\
  ((Z.of_nat (length data) <= count_max)%Z ->
   Zsum (counts h) = Z.of_nat (length data)) /\
  (forall i, (i < bins this)%nat ->
     nth i (counts h) 0%Z =
     (Z.of_nat (hits this data i) mod (count_max + 1))%Z).
Proof.
  intro H. apply constructed_Ok in H.
  pose proof (FillCounts_preserves data _ _ _ H) as (Hb & Hn & Hl).
  pose proof (FillCounts_frame data _ _ _ H) as (Hr & Hna).
  cbn [ResetCounts breaks bins counts range name set_counts] in Hb, Hn, Hl, Hr, Hna.
  rewrite repeat_length in Hl.
  assert (Hzero : Forall (fun c => (0 <= c <= count_max)%Z)
                         (counts (ResetCounts this))).
  { cbn [ResetCounts counts set_counts]. apply Forall_forall.
    intros c Hc. apply repeat_spec in Hc. subst c.
    pose proof count_max_pos. lia. }
  split; [auto 6|]. split; [|split].
  - intros v Hv.
    destruct (FillCounts_Ok_accepts data _ _ H v Hv) as [i Hi].
    apply IndexFromValue_Ok_range in Hi. exact Hi.
  - intro Hmax.
    destruct (FillCounts_sum data (ResetCounts this) h) as [Hsum _].
    + eapply Forall_impl; [|exact Hzero]. cbv beta. intros; lia.
    + cbn [ResetCounts counts set_counts]. rewrite Zsum_repeat_0. lia.
    + exact H.
    + rewrite Hsum. cbn [ResetCounts counts set_counts].
      rewrite Zsum_repeat_0. lia.
  - intros i Hi.
    rewrite (FillCounts_counts data (ResetCounts this) h Hzero H i)
      by (cbn [ResetCounts counts set_counts]; rewrite repeat_length; exact Hi).
    cbn [ResetCounts counts set_counts].
    rewrite (hits_ext this (set_counts this (repeat 0%Z (bins this))))
      by reflexivity.
    f_equal.
    assert (E : nth i (repeat 0%Z (bins this)) 0%Z = 0%Z).
    { destruct (nth_in_or_default i (repeat 0%Z (bins this)) 0%Z) as [Hin|E];
        [apply repeat_spec in Hin; exact Hin | exact E]. }
    rewrite E. reflexivity.
Qed.

(** X19. Whenever the constructor [Histo(data, input_breaks)] returns,
    the breaks are monotonically increasing and stored as given,
    [bins == breaks.size() - 1], the range is
    [(breaks.front(), breaks.back())], the name is empty and there is one
    count per bin; every value of the data lies in
    [[breaks.front(), breaks.back() + epsilon]]; the counts sum to
    [data.size()] (when that is at most the maximum of [PRECI_INTEGER]), and
    count [i] is the number of values that [IndexFromValue] sends to bin
    [i]. *)
Theorem Histo_data_breaks_built (data input_breaks : list Q) (h : Histo Z) :
  Histo_data_breaks data input_breaks = Ok h ->
  CheckIfMonotonicallyIncreasing input_breaks = Ok true /\
  breaks h = input_breaks /\
  length input_breaks = S (bins h) /\
  range h = (nth 0 input_breaks 0, nth (bins h) input_breaks 0) /\
  name h = EmptyString /\
  length (counts h) = bins h /\
  (forall v, In v data ->
     nth 0 input_breaks 0 <= v <= nth (bins h) input_breaks 0 + epsilon) /\
  ((Z.of_nat (length data) <= count_max)%Z ->
   Zsum (counts h) = Z.of_nat (length data)) /\
  (forall i, (i < bins h)%nat ->
     nth i (counts h) 0%Z =
     (Z.of_nat (hits h data i) mod (count_max + 1))%Z).
Proof.
  unfold Histo_data_breaks.
  cbn [breaks set_breaks Histo_default].
  destruct (CheckIfMonotonicallyIncreasing input_breaks) as [[|]| | |] eqn:Hc;
    cbn [bind negb]; try discriminate.
  destruct input_breaks as [|b0 rest]; [discriminate Hc|].
  cbn [size_minus_one vec_at nth_error bind].
  rewrite (vec_at_nth (b0 :: rest) (length rest) 0) by (simpl; lia).
  cbn [bind].
  intro H. apply constructed_filled in H.
  cbn [breaks bins range name set_bins set_range set_breaks Histo_default] in H.
  destruct H as ((Hb & Hn & Hr & Hna & Hl) & Hin & Hsum & Hhits).
  rewrite Hn, Hr.
  split; [reflexivity|]. split; [exact Hb|]. split; [reflexivity|].
  split; [reflexivity|].
  split; [exact Hna|]. split; [exact Hl|]. split; [exact Hin|].
  split; [exact Hsum|].
  intros i Hi. rewrite (Hhits i Hi). f_equal. f_equal.
  apply hits_ext; [symmetry; exact Hb | symmetry; exact Hn].
Qed.

(** X20. The constructor [Histo(data, input_breaks)] throws the error
    of breaks that do not increase if and only if some break is less than or
    equal to the one before it, whatever the data: no other path of the
    constructor raises that error. *)
Theorem Histo_data_breaks_rejects (data input_breaks : list Q) :
  Histo_data_breaks data input_breaks = Throw NotMonotonicallyIncreasing <->
  exists i, (S i < length input_breaks)%nat /\
    nth (S i) input_breaks 0 <= nth i input_breaks 0.
Proof.
  unfold Histo_data_breaks. cbn [breaks set_breaks Histo_default].
  destruct input_breaks as [|b0 rest].
  - split; [discriminate | intros (i & Hi & _); simpl in Hi; lia].
  - cbn [CheckIfMonotonicallyIncreasing bind].
    destruct (increasing_from b0 rest) eqn:E; cbn [negb].
    + split.
      * cbn [size_minus_one vec_at nth_error bind].
        rewrite (vec_at_nth (b0 :: rest) (length rest) 0) by (simpl; lia).
        cbn [bind]. intro H.
        destruct (FillCounts data _) as [r h0] eqn:F.
        destruct r as [[]|e| |]; simpl in H; try discriminate H.
        injection H as ->.
        pose proof (FillCounts_throw_ValueOutOfBonds _ _ _ _ F) as E'.
        discriminate E'.
      * intros (i & Hi & Hle). exfalso.
        assert (Hc : CheckIfMonotonicallyIncreasing (b0 :: rest) = Ok true)
          by (cbn; rewrite E; reflexivity).
        pose proof (increasing_nth _ Hc i (S i) ltac:(lia)). lra.
    + split; [intros _ | reflexivity].
      apply increasing_from_false. exact E.
Qed.

Lemma CalculateBreaks_Ok (fuel : nat) (this h : Histo Z)
    (data : list Q) (rang : Q * Q) (method : breaks_method) :
  CalculateBreaks sqrt cbrt fuel this data rang method = Ok h ->
  method = Scott /\
  range h = range this /\ name h = name this /\
  (2 <= length (breaks h))%nat.
Proof.
  destruct method; simpl; [|discriminate].
  unfold ScottMethod.
  destruct (variance_welford data) as [sigma| | |]; cbn [bind];
    try discriminate.
  destruct (Qdiv_checked _ _) as [width| | |]; cbn [bind]; try discriminate.
  destruct (Qdiv_checked _ _) as [quotient| | |]; cbn [bind];
    try discriminate.
  destruct (to_ulong _) as [nbins| | |]; cbn [bind]; try discriminate.
  destruct (BalanceBreaksWithRange _ _ _) as [[b' c]| | |] eqn:B; cbn [bind];
    try discriminate.
  intro H. injection H as <-.
  cbn [range name breaks set_bins set_breaks].
  pose proof (Balance_walk fuel _ (range this) 0
                (Balance_Ok_checked _ _ _ _ _ B)) as Hpost.
  rewrite B in Hpost. destruct Hpost as (Hlen & _).
  auto.
Qed.

(** The part the two constructors that compute their breaks share. *)
Lemma Scott_constructed (fuel : nat) (this h : Histo Z) (data : list Q)
    (method : breaks_method) :
  bind (CalculateBreaks sqrt cbrt fuel this data (range this) method)
       (fun this' =>
          constructed
            (FillCounts data
               (ResetCounts
                  (set_bins this' (size_minus_one (breaks this'))))))
  = Ok h ->
  method = Scott /\
  range h = range this /\ name h = name this /\
  length (breaks h) = S (bins h) /\ (1 <= bins h)%nat /\
  length (counts h) = bins h /\
  (forall v, In v data ->
     nth 0 (breaks h) 0 <= v <= nth (bins h) (breaks h) 0 + epsilon) /\
  ((Z.of_nat (length data) <= count_max)%Z ->
   Zsum (counts h) = Z.of_nat (length data)) /\
  (forall i, (i < bins h)%nat ->
     nth i (counts h) 0%Z =
     (Z.of_nat (hits h data i) mod (count_max + 1))%Z).
Proof.
  destruct (CalculateBreaks sqrt cbrt fuel this data (range this) method)
    as [this'| | |] eqn:Cb; cbn [bind]; try discriminate.
  apply CalculateBreaks_Ok in Cb.
  destruct Cb as (Hm & Hr & Hna & Hlen).
  intro H. apply constructed_filled in H.
  cbn [breaks bins range name set_bins] in H.
  destruct H as ((Hb & Hn & Hr' & Hna' & Hl) & Hin & Hsum & Hhits).
  rewrite size_minus_one_length in Hn, Hl, Hin, Hhits by lia.
  rewrite Hb, Hn, Hr', Hna'.
  split; [exact Hm|]. split; [exact Hr|]. split; [exact Hna|].
  split; [lia|]. split; [lia|]. split; [exact Hl|].
  split; [exact Hin|]. split; [exact Hsum|].
  intros i Hi. rewrite (Hhits i Hi). f_equal. f_equal.
  apply hits_ext; [symmetry; exact Hb | symmetry; exact Hn].
Qed.

(** X21. Whenever the constructor [Histo(data, input_range, method)]
    returns, the method is [Scott], the range is [input_range], the name is
    empty, [breaks.size() == bins + 1] with at least one bin and one count
    per bin, every value of the data lies in
    [[breaks.front(), breaks.back() + epsilon]], the counts sum to
    [data.size()] (when that is at most the maximum of [PRECI_INTEGER]), and
    count [i] is the number of values that [IndexFromValue] sends to bin
    [i]. *)
Theorem Histo_data_range_built (fuel : nat) (data : list Q)
    (input_range : Q * Q) (method : breaks_method) (h : Histo Z) :
  Histo_data_range sqrt cbrt fuel data input_range method = Ok h ->
  method = Scott /\
  range h = input_range /\ name h = EmptyString /\
  length (breaks h) = S (bins h) /\ (1 <= bins h)%nat /\
  length (counts h) = bins h /\
  (forall v, In v data ->
     nth 0 (breaks h) 0 <= v <= nth (bins h) (breaks h) 0 + epsilon) /\
  ((Z.of_nat (length data) <= count_max)%Z ->
   Zsum (counts h) = Z.of_nat (length data)) /\
  (forall i, (i < bins h)%nat ->
     nth i (counts h) 0%Z =
     (Z.of_nat (hits h data i) mod (count_max + 1))%Z).
Proof.
  intro H.
  exact (Scott_constructed fuel (set_range Histo_default input_range) h data
           method H).
Qed.

(** X22. Whenever the constructor [Histo(data, method)] returns, the
    method is [Scott]; the two ends of the range are values of the data, the
    least and the greatest; [breaks.size() == bins + 1] with at least one
    bin and one count per bin; every value of the data lies in
    [[breaks.front(), breaks.back() + epsilon]]; the counts sum to
    [data.size()] (when that is at most the maximum of [PRECI_INTEGER]), and
    count [i] is the number of values that [IndexFromValue] sends to bin
    [i]. *)
Theorem Histo_data_built (fuel : nat) (data : list Q)
    (method : breaks_method) (h : Histo Z) :
  Histo_data sqrt cbrt fuel data method = Ok h ->
  method = Scott /\
  In (fst (range h)) data /\ In (snd (range h)) data /\
  (forall x, In x data -> fst (range h) <= x <= snd (range h)) /\
  length (breaks h) = S (bins h) /\ (1 <= bins h)%nat /\
  length (counts h) = bins h /\
  (forall v, In v data ->
     nth 0 (breaks h) 0 <= v <= nth (bins h) (breaks h) 0 + epsilon) /\
  ((Z.of_nat (length data) <= count_max)%Z ->
   Zsum (counts h) = Z.of_nat (length data)) /\
  (forall i, (i < bins h)%nat ->
     nth i (counts h) 0%Z =
     (Z.of_nat (hits h data i) mod (count_max + 1))%Z).
Proof.
  unfold Histo_data.
  destruct (minmax_element data) as [[lo hi]| | |] eqn:Mm; cbn [bind];
    try discriminate.
  intro H.
  pose proof (Scott_constructed fuel (set_range Histo_default (lo, hi)) h data
                method H)
    as (Hm & Hr & _ & Hlen & Hbins & Hl & Hin & Hsum & Hhits).
  cbn [range set_range] in Hr.
  destruct (minmax_element_bounds data lo hi Mm) as (Hlo & Hhi & Hall).
  rewrite Hr. cbn [fst snd]. auto 11.
Qed.

(** X23. A single break [{b}] passes the check of the constructor
    [Histo(data, input_breaks)]. Without data the constructor builds a
    histogram of no bin and no count. With data whose first value lies in
    [[b, b + epsilon]], [IndexFromValue] returns [0] and [FillCounts]
    increments [counts[0]] of an empty vector; with a first value outside,
    the constructor throws the error of [IndexFromValue]. *)
Theorem Histo_data_breaks_single_break (b v : Q) (data : list Q) :
  (exists h, Histo_data_breaks [] [b] = Ok h /\ bins h = 0%nat /\
             counts h = [] /\ breaks h = [b]) /\
  (b <= v <= b + epsilon ->
   Histo_data_breaks (v :: data) [b] = Stuck OutOfBoundsAccess) /\
  (v < b \/ b + epsilon < v ->
   Histo_data_breaks (v :: data) [b] = Throw ValueOutOfBonds).
Proof.
  split; [eexists; repeat split|].
  unfold Histo_data_breaks. cbn -[FillCounts IndexFromValue].
  rewrite FillCounts_cons.
  unfold IndexFromValue.
  cbn [breaks bins ResetCounts set_counts set_bins set_range set_breaks
       Histo_default vec_at nth_error bind Nat.sub].
  split.
  - intros [H1 H2].
    rewrite (proj2 (Qge_bool_iff _ _) H1).
    assert (E : isequalthan 1 v b = true)
      by (apply isequalthan_1_iff; pose proof epsilon_pos; split; lra).
    rewrite E, orb_true_r. reflexivity.
  - intros [H|H].
    + rewrite (proj2 (Qge_bool_false _ _) H). reflexivity.
    + pose proof epsilon_pos.
      assert (E0 : Qge_bool v b = true) by (apply Qge_bool_iff; lra).
      assert (E1 : Qlt_bool v b = false) by (apply Qlt_bool_false; lra).
      assert (E2 : isequalthan 1 v b = false).
      { destruct (isequalthan 1 v b) eqn:E; [|reflexivity].
        apply isequalthan_1_iff in E. lra. }
      rewrite E0, E1, E2. reflexivity.
Qed.

(** X24. On a histogram of consistent lengths, [Mean] divides by
    [bins == 0] when there is no bin, and [NormalizeByArea] divides the
    counts by [sum == 0] when there is a bin and the total area is zero (all
    counts zero, for one). *)
Theorem views_divide_by_zero (h : Histo Z) :
  consistent h ->
  (bins h = 0%nat -> Mean h = Stuck DivisionByZero) /\
  ((1 <= bins h)%nat -> total_area h == 0 ->
   NormalizeByArea h = Stuck DivisionByZero).
Proof.
  intros [Hb Hc]. split.
  - intro H0. unfold Mean, ComputeBinCenters. rewrite Hc, H0.
    destruct (counts h) as [|c cs]; [|rewrite H0 in Hc; discriminate Hc].
    reflexivity.
  - intros Hbins Harea. unfold NormalizeByArea.
    destruct (area_sum_total h (bins h) 0 0) as (s & Hs & Es); [lia | lia |].
    rewrite Hs. cbn [bind].
    assert (Ez : Qeq_bool s 0 = true).
    { apply Qeq_bool_iff. rewrite Es. fold (total_area h). rewrite Harea.
      reflexivity. }
    destruct (counts h) as [|c cs]; [simpl in Hc; lia|].
    cbn [transform_div]. unfold Qdiv_checked. rewrite Ez. reflexivity.
Qed.

(** X25. On a histogram of consistent lengths [ComputeBinCenters]
    returns one center per bin, center [i] being
    [(breaks[i] + breaks[i+1]) / 2]; on monotonically increasing breaks each
    center lies strictly between the two breaks of its bin. *)
Theorem ComputeBinCenters_midpoints (h : Histo Z) :
  consistent h ->
  exists centers, ComputeBinCenters h = Ok centers /\
    length centers = bins h /\
    (forall i, (i < bins h)%nat ->
       nth i centers 0 == (nth i (breaks h) 0 + nth (S i) (breaks h) 0) / 2) /\
    (CheckIfMonotonicallyIncreasing (breaks h) = Ok true ->
     forall i, (i < bins h)%nat ->
       nth i (breaks h) 0 < nth i centers 0 /\
       nth i centers 0 < nth (S i) (breaks h) 0).
Proof.
  intros [Hb Hc]. unfold ComputeBinCenters.
  rewrite centers_from_map by lia. eexists. split; [reflexivity|].
  rewrite length_map, length_seq, Hc. split; [reflexivity|].
  assert (Hnth : forall i, (i < bins h)%nat ->
            nth i (map (fun k => nth k (breaks h) 0
                         + (nth (S k) (breaks h) 0 - nth k (breaks h) 0) / 2)
                       (seq 0 (bins h))) 0
            == (nth i (breaks h) 0 + nth (S i) (breaks h) 0) / 2).
  { intros i Hi.
    rewrite (nth_map_seq (fun k => nth k (breaks h) 0
               + (nth (S k) (breaks h) 0 - nth k (breaks h) 0) / 2) _ _ Hi).
    field. }
  split; [exact Hnth|].
  intros Hinc i Hi. rewrite (Hnth i Hi).
  pose proof (increasing_nth _ Hinc i (S i) ltac:(lia)) as Hlt.
  split.
  - apply Qlt_shift_div_l; lra.
  - apply Qlt_shift_div_r; lra.
Qed.

Lemma Qceiling_unit (q : Q) : 0 < q -> q <= 1 -> Qceiling q = 1%Z.
Proof.
  intros H0 H1.
  pose proof (Qle_ceiling q) as Hc.
  pose proof (Qceiling_resp_le q 1 H1) as Hle.
  change 1 with (inject_Z 1) in Hle. rewrite Qceiling_Z in Hle.
  assert (Hpos : (0 < Qceiling q)%Z).
  { rewrite Zlt_Qlt. change (inject_Z 0) with 0. lra. }
  lia.
Qed.

(** X26. The constructor [Histo(data, input_range, Scott)] on a range
    with [first < second] and data whose Scott width,
    [3.5 * sqrt(variance) / cbrt(n)], is more than [2.25] times the length of
    the range (and beyond the range by more than [epsilon]): [ScottMethod]
    generates one bin, [BalanceBreaksWithRange] pops its upper break and
    divides by [nbins == 0]. *)
Theorem Histo_data_range_wide_data (fuel : nat) (data : list Q)
    (low upper sigma : Q) :
  variance_welford data = Ok sigma ->
  ~ cbrt (of_nat (length data)) == 0 ->
  low < upper ->
  epsilon < low + (35 # 10) * sqrt sigma / cbrt (of_nat (length data)) - upper ->
  (9 # 4) * (upper - low)
  < (35 # 10) * sqrt sigma / cbrt (of_nat (length data)) ->
  Histo_data_range sqrt cbrt fuel data (low, upper) Scott
  = Stuck DivisionByZero.
Proof.
  intros Hs Hcb Hr Heps Hwide.
  pose proof epsilon_pos as Hpos.
  unfold Histo_data_range, CalculateBreaks, ScottMethod.
  cbn [range set_range Histo_default fst snd]. rewrite Hs. cbn [bind].
  rewrite (Qdiv_checked_Ok _ _ Hcb). cbn [bind].
  set (width := (35 # 10) * sqrt sigma / cbrt (of_nat (length data))) in *.
  assert (Hw : 0 < width) by lra.
  rewrite Qdiv_checked_Ok by lra. cbn [bind].
  rewrite (Qceiling_unit ((upper - low) / width)).
  - cbn [to_ulong Z.leb Z.compare andb bind]. 
    change (to_ulong 1) with (@Ok nat 1%nat). cbn [bind].
    change (seq 0 (ulong_succ 1)) with [0%nat; 1%nat]. cbn [map].
    rewrite (Balance_two_breaks_stuck fuel _ _ (low, upper)); cbn [fst snd].
    + reflexivity.
    + change (of_nat 0) with 0. ring.
    + exact Hr.
    + change (of_nat 1) with 1. lra.
    + change (of_nat 1) with 1. lra.
  - apply Qlt_shift_div_l; lra.
  - apply Qle_shift_div_r; lra.
Qed.

End FurtherProperties.

(** * The further properties at the data of the tests *)

(** [HistoConstructor.withBreaksWithGenerator] *)
Lemma GenerateBreaksFromRangeAndBins_shape_witness :
  exists b, GenerateBreaksFromRangeAndBins 0 20 10 = Ok b /\
    length b = 11%nat /\
    nth 0 b 0 == 0 /\
    (0 <= 20 ->
     forall i, (S i < length b)%nat -> nth i b 0 <= nth (S i) b 0).
Proof.
  apply (proj1 (proj2 (GenerateBreaksFromRangeAndBins_shape 0 20 10))).
  - lia.
  - reflexivity.
Defined.

(** [GenerateBreaksFromRangeAndWidth.withGreaterUpper] *)
Lemma GenerateBreaksFromRangeAndWidth_within_witness :
  exists b,
    GenerateBreaksFromRangeAndWidth 6 0 (45 # 10) 1 = Ok b /\
    length b = 6%nat /\
    (b = [] <-> (45 # 10) + 1 <= 0) /\
    (b <> [] -> 0 < 1 /\ nth 0 b 0 = 0) /\
    (forall i, (i < length b)%nat ->
       0 <= nth i b 0 /\ nth i b 0 < (45 # 10) + 1) /\
    (forall i, (S i < length b)%nat -> nth i b 0 < nth (S i) b 0).
Proof.
  assert (Hrun : exists b,
            GenerateBreaksFromRangeAndWidth 6 0 (45 # 10) 1 = Ok b /\
            length b = 6%nat)
    by (eexists; split; vm_compute; reflexivity).
  destruct Hrun as (b & Hrun & Hlen). exists b.
  split; [exact Hrun|]. split; [exact Hlen|].
  exact (GenerateBreaksFromRangeAndWidth_within 6 0 (45 # 10) 1 b Hrun).
Defined.

Lemma IndexFromValue_unique_monotone_witness :
  (forall j, (j < 3)%nat ->
     nth j [1; 2; 15; 20] 0 <= 2 -> 2 < nth (S j) [1; 2; 15; 20] 0 ->
     j = 1%nat) /\
  (IndexFromValue withBreaks_histo 19 = Ok 2%nat -> 2 <= 19 -> (1 <= 2)%nat).
Proof.
  apply (IndexFromValue_unique_monotone withBreaks_histo 2 19 1 2).
  - reflexivity.
  - reflexivity.
  - simpl; lia.
  - reflexivity.
Defined.

Lemma FillCounts_safe_witness :
  exists h',
    (FillCounts withBreaks_data withBreaks_histo = (Ok tt, h') \/
     FillCounts withBreaks_data withBreaks_histo
     = (Throw ValueOutOfBonds, h')) /\
    breaks h' = breaks withBreaks_histo /\
    bins h' = bins withBreaks_histo /\
    range h' = range withBreaks_histo /\
    name h' = name withBreaks_histo /\
    length (counts h') = length (counts withBreaks_histo).
Proof.
  apply (FillCounts_safe withBreaks_data withBreaks_histo).
  - split; reflexivity.
  - simpl; lia.
Defined.

Lemma FillCounts_total_witness :
  Zsum (counts withBreaks_filled) =
  (Zsum (counts withBreaks_histo) + Z.of_nat (length withBreaks_data))%Z /\
  Forall (fun c => (0 <= c)%Z) (counts withBreaks_filled).
Proof.
  apply (FillCounts_total withBreaks_data withBreaks_histo withBreaks_filled).
  - repeat (apply Forall_cons; [lia|]). apply Forall_nil.
  - vm_compute; discriminate.
  - reflexivity.
Defined.

Lemma FillCounts_hits_witness :
  nth 1 (counts withBreaks_filled) 0%Z =
  ((nth 1 (counts withBreaks_histo) 0
    + Z.of_nat (hits withBreaks_histo withBreaks_data 1))
   mod (count_max + 1))%Z.
Proof.
  apply (FillCounts_hits withBreaks_data withBreaks_histo withBreaks_filled 1).
  - repeat (apply Forall_cons; [split; vm_compute; discriminate|]).
    apply Forall_nil.
  - reflexivity.
  - simpl; lia.
Defined.

Lemma Increase_Decrease_round_trip_witness :
  ((0 <= 2 < count_max)%Z ->
   exists h1, Increase 0 withBreaks_filled = (Ok tt, h1) /\
     nth_error (counts h1) 0 = Some (2 + 1)%Z /\
     Decrease 0 h1 = (Ok tt, withBreaks_filled)) /\
  ((0 < 2 <= count_max)%Z ->
   exists h1, Decrease 0 withBreaks_filled = (Ok tt, h1) /\
     nth_error (counts h1) 0 = Some (2 - 1)%Z /\
     Increase 0 h1 = (Ok tt, withBreaks_filled)).
Proof.
  apply (Increase_Decrease_round_trip withBreaks_filled 0 2).
  reflexivity.
Defined.

Lemma Increase_Decrease_guards_witness :
  (Increase 0 withBreaks_filled = (Throw IncreaseExceeded, withBreaks_filled)
   <-> 2%Z = count_max) /\
  (Decrease 0 withBreaks_filled = (Throw DecreaseNegative, withBreaks_filled)
   <-> 2%Z = 0%Z) /\
  (forall e h', Increase 0 withBreaks_filled = (Throw e, h') ->
                e = IncreaseExceeded /\ h' = withBreaks_filled) /\
  (forall e h', Decrease 0 withBreaks_filled = (Throw e, h') ->
                e = DecreaseNegative /\ h' = withBreaks_filled).
Proof.
  apply (Increase_Decrease_guards withBreaks_filled 0 2).
  - reflexivity.
  - split; vm_compute; discriminate.
Defined.

Lemma SetCount_lookup_witness :
  exists h', SetCount 1 7 withBreaks_filled = (Ok tt, h') /\
    nth_error (counts h') 1 = Some 7%Z /\
    (forall j, j <> 1%nat ->
       nth_error (counts h') j = nth_error (counts withBreaks_filled) j) /\
    length (counts h') = length (counts withBreaks_filled) /\
    breaks h' = breaks withBreaks_filled /\
    bins h' = bins withBreaks_filled /\
    range h' = range withBreaks_filled /\
    (forall v', SetCount 1 v' h' = SetCount 1 v' withBreaks_filled).
Proof.
  apply (SetCount_lookup withBreaks_filled 1 7).
  - reflexivity.
  - simpl; lia.
Defined.

Lemma BalanceBreaksWithRange_checks_first_witness :
  BalanceBreaksWithRange 0 [0; 1; 3] (0, 3) = Throw NonEquidistantBreaks /\
  BalanceBreaksWithRange 0 [1] (1, 5) = Stuck OutOfBoundsAccess.
Proof.
  split.
  - apply (proj1 (proj2
             (BalanceBreaksWithRange_checks_first 0 [0; 1; 3] (0, 3)))).
    split; reflexivity.
  - apply (proj2 (proj2
             (BalanceBreaksWithRange_checks_first 0 [1] (1, 5)))).
    simpl; lia.
Defined.

Lemma BalanceBreaksWithRange_changed_witness :
  (true = false <->
   Qabs (nth 0 [0; 1] 0 - 0) <= epsilon /\
   Qabs (nth (length [0; 1] - 1) [0; 1] 0 - 3) <= epsilon) /\
  (true = false -> [0; 1; 2; 3] = [0; 1]).
Proof.
  apply (BalanceBreaksWithRange_changed 4 [0; 1] [0; 1; 2; 3] (0, 3) true).
  reflexivity.
Defined.

Lemma BalanceBreaksWithRange_drops_only_bin_witness :
  CheckBreaksAreEquidistant [0; 3] = Ok true /\
  BalanceBreaksWithRange 0 [0; 3] (0, 1) = Stuck DivisionByZero.
Proof.
  apply (BalanceBreaksWithRange_drops_only_bin 0 0 3 (0, 1)).
  - reflexivity.
  - reflexivity.
  - reflexivity.
  - reflexivity.
Defined.

Lemma Histo_data_breaks_built_witness :
  CheckIfMonotonicallyIncreasing [1; 2; 15; 20] = Ok true /\
  breaks withBreaks_filled = [1; 2; 15; 20] /\
  length [1; 2; 15; 20] = S (bins withBreaks_filled) /\
  range withBreaks_filled
  = (nth 0 [1; 2; 15; 20] 0, nth (bins withBreaks_filled) [1; 2; 15; 20] 0) /\
  name withBreaks_filled = EmptyString /\
  length (counts withBreaks_filled) = bins withBreaks_filled /\
  (forall v, In v withBreaks_data ->
     nth 0 [1; 2; 15; 20] 0 <= v
     <= nth (bins withBreaks_filled) [1; 2; 15; 20] 0 + epsilon) /\
  ((Z.of_nat (length withBreaks_data) <= count_max)%Z ->
   Zsum (counts withBreaks_filled) = Z.of_nat (length withBreaks_data)) /\
  (forall i, (i < bins withBreaks_filled)%nat ->
     nth i (counts withBreaks_filled) 0%Z =
     (Z.of_nat (hits withBreaks_filled withBreaks_data i)
      mod (count_max + 1))%Z).
Proof.
  apply (Histo_data_breaks_built withBreaks_data [1; 2; 15; 20]
           withBreaks_filled).
  reflexivity.
Defined.

Lemma Histo_data_range_built_witness :
  exists h,
    Histo_data_range sqrt_HistoDoubleScott cbrt_HistoDoubleScott 2
      HistoDoubleScott_data (0, 6) Scott = Ok h /\
    Scott = Scott /\
    range h = (0, 6) /\ name h = EmptyString /\
    length (breaks h) = S (bins h) /\ (1 <= bins h)%nat /\
    length (counts h) = bins h /\
    (forall v, In v HistoDoubleScott_data ->
       nth 0 (breaks h) 0 <= v <= nth (bins h) (breaks h) 0 + epsilon) /\
    ((Z.of_nat (length HistoDoubleScott_data) <= count_max)%Z ->
     Zsum (counts h) = Z.of_nat (length HistoDoubleScott_data)) /\
    (forall i, (i < bins h)%nat ->
       nth i (counts h) 0%Z =
       (Z.of_nat (hits h HistoDoubleScott_data i) mod (count_max + 1))%Z).
Proof.
  assert (Hrun : exists h,
            Histo_data_range sqrt_HistoDoubleScott cbrt_HistoDoubleScott 2
              HistoDoubleScott_data (0, 6) Scott = Ok h)
    by (eexists; vm_compute; reflexivity).
  destruct Hrun as [h Hrun]. exists h. split; [exact Hrun|].
  exact (Histo_data_range_built sqrt_HistoDoubleScott cbrt_HistoDoubleScott 2
           HistoDoubleScott_data (0, 6) Scott h Hrun).
Defined.

Lemma Histo_data_built_witness :
  exists h,
    Histo_data sqrt_HistoDoubleScott cbrt_HistoDoubleScott 2
      HistoDoubleScott_data Scott = Ok h /\
    Scott = Scott /\
    In (fst (range h)) HistoDoubleScott_data /\
    In (snd (range h)) HistoDoubleScott_data /\
    (forall x, In x HistoDoubleScott_data ->
       fst (range h) <= x <= snd (range h)) /\
    length (breaks h) = S (bins h) /\ (1 <= bins h)%nat /\
    length (counts h) = bins h /\
    (forall v, In v HistoDoubleScott_data ->
       nth 0 (breaks h) 0 <= v <= nth (bins h) (breaks h) 0 + epsilon) /\
    ((Z.of_nat (length HistoDoubleScott_data) <= count_max)%Z ->
     Zsum (counts h) = Z.of_nat (length HistoDoubleScott_data)) /\
    (forall i, (i < bins h)%nat ->
       nth i (counts h) 0%Z =
       (Z.of_nat (hits h HistoDoubleScott_data i) mod (count_max + 1))%Z).
Proof.
  assert (Hrun : exists h,
            Histo_data sqrt_HistoDoubleScott cbrt_HistoDoubleScott 2
              HistoDoubleScott_data Scott = Ok h)
    by (eexists; vm_compute; reflexivity).
  destruct Hrun as [h Hrun]. exists h. split; [exact Hrun|].
  exact (Histo_data_built sqrt_HistoDoubleScott cbrt_HistoDoubleScott 2
           HistoDoubleScott_data Scott h Hrun).
Defined.

Lemma Histo_data_range_wide_data_witness :
  Histo_data_range sqrt_HistoDoubleScott cbrt_HistoDoubleScott 0
    HistoDoubleScott_data (2, 4) Scott
  = Stuck DivisionByZero.
Proof.
  assert (Hs : exists sigma, variance_welford HistoDoubleScott_data = Ok sigma)
    by (eexists; vm_compute; reflexivity).
  destruct Hs as [sigma Hs].
  apply (Histo_data_range_wide_data sqrt_HistoDoubleScott
           cbrt_HistoDoubleScott 0 HistoDoubleScott_data 2 4 sigma Hs).
  - vm_compute; discriminate.
  - reflexivity.
  - reflexivity.
  - reflexivity.
Defined.

Lemma views_divide_by_zero_witness :
  (bins withBreaks_histo = 0%nat ->
   Mean withBreaks_histo = Stuck DivisionByZero) /\
  ((1 <= bins withBreaks_histo)%nat -> total_area withBreaks_histo == 0 ->
   NormalizeByArea withBreaks_histo = Stuck DivisionByZero).
Proof.
  apply (views_divide_by_zero withBreaks_histo).
  split; reflexivity.
Defined.

Lemma ComputeBinCenters_midpoints_witness :
  exists centers, ComputeBinCenters withBreaks_filled = Ok centers /\
    length centers = bins withBreaks_filled /\
    (forall i, (i < bins withBreaks_filled)%nat ->
       nth i centers 0
       == (nth i (breaks withBreaks_filled) 0
           + nth (S i) (breaks withBreaks_filled) 0) / 2) /\
    (CheckIfMonotonicallyIncreasing (breaks withBreaks_filled) = Ok true ->
     forall i, (i < bins withBreaks_filled)%nat ->
       nth i (breaks withBreaks_filled) 0 < nth i centers 0 /\
       nth i centers 0 < nth (S i) (breaks withBreaks_filled) 0).
Proof.
  apply (ComputeBinCenters_midpoints withBreaks_filled).
  split; reflexivity.
Defined.

Lemma CheckIfMonotonicallyIncreasing_iff_witness :
  CheckIfMonotonicallyIncreasing [2; 1] = Ok false /\
  CheckIfMonotonicallyIncreasing [] = Stuck OutOfBoundsAccess.
Proof.
  split.
  - apply (proj2 (proj1 (proj2 (CheckIfMonotonicallyIncreasing_iff [2; 1])))).
    exists 0%nat. split; [simpl; lia | vm_compute; discriminate].
  - apply (proj2 (proj2 (proj2 (CheckIfMonotonicallyIncreasing_iff [])))).
    reflexivity.
Defined.


Lemma GenerateBreaksFromRangeAndWidth_bad_width_witness :
  GenerateBreaksFromRangeAndWidth 1000 0 4 0 = OutOfFuel.
Proof.
  apply (proj2 (GenerateBreaksFromRangeAndWidth_bad_width 1000 0 4 0)).
  - vm_compute; discriminate.
  - reflexivity.
Defined.

(** [HistoConstructor.withBreaks]: five values more, counted after the data
    of the constructor. *)
Lemma FillCounts_app_witness :
  FillCounts (withBreaks_data ++ [20; 20; 20; 20; 20]) withBreaks_histo =
  match FillCounts withBreaks_data withBreaks_histo with
  | (Ok _, h') => FillCounts [20; 20; 20; 20; 20] h'
  | stop => stop
  end.
Proof.
  apply (FillCounts_app withBreaks_data [20; 20; 20; 20; 20] withBreaks_histo).
Defined.

Lemma variance_welford_sample_variance_witness :
  exists v, variance_welford HistoDoubleScott_data = Ok v /\
    v == sample_variance HistoDoubleScott_data.
Proof.
  apply (proj1 (variance_welford_sample_variance HistoDoubleScott_data)).
  simpl; lia.
Defined.

Lemma Histo_data_breaks_rejects_witness :
  Histo_data_breaks withBreaks_data [2; 1] = Throw NotMonotonicallyIncreasing.
Proof.
  apply (proj2 (Histo_data_breaks_rejects withBreaks_data [2; 1])).
  exists 0%nat. split; [simpl; lia | vm_compute; discriminate].
Defined.

Lemma Histo_data_breaks_single_break_witness :
  Histo_data_breaks [1] [1] = Stuck OutOfBoundsAccess.
Proof.
  apply (proj1 (proj2 (Histo_data_breaks_single_break 1 1 []))).
  split; vm_compute; discriminate.
Defined.
